(** * digest.py: file filter, glob matcher, tree renderer and traversal

    A shallow embedding of [src/digest.py] and the properties of its
    specification.

    Modelling conventions.
    - A Python [str] is a [string]: a sequence of 8-bit characters.  For
      ASCII path names a character is a code point; other text is carried
      as its UTF-8 bytes (the box-drawing connectors of the tree are such
      byte sequences).  Two operations of the program work on code points
      and are modelled on characters, so that they are those of the
      program on ASCII text only: [str.lower], which here lowers the
      ASCII letters and leaves every other character alone, and the
      regular expression's [.] and bracket sets, which here take one
      character.  A property that states what these compute is stated
      for ASCII names ([is_ascii], [ascii_names]).
    - A Python [bytes] value is a [list byte].
    - The sets [DEFAULT_BINARY_EXTENSIONS] and [DEFAULT_IGNORE_DIRS] are
      [gset string].
    - Everything printed to [sys.stderr] is a value of [diag]; the wording
      of the messages is not modelled, their kind and arguments are.
    - [os.sep] is ["/"] (POSIX). *)

From Stdlib Require Import Ascii Floats Uint63 QArith.
From Stdlib.Strings Require Import Byte.
From stdpp Require Import base decidable option list sorting gmap strings.

Local Open Scope Z_scope.

#[local] Set Warnings "-register-all".

(** ** Strings *)

Module Str.

Definition os_sep : ascii := "/"%char.
Definition extsep : ascii := "."%char.

(** [s.split(sep)] for a one-character separator: never an empty list. *)
Fixpoint split (sep : ascii) (s : string) : list string :=
  match s with
  | EmptyString => [EmptyString]
  | String c s' =>
      if Ascii.eqb c sep then EmptyString :: split sep s'
      else match split sep s' with
           | [] => [String c EmptyString]
           | p :: ps => String c p :: ps
           end
  end.

(** [sep.join(parts)] *)
Definition join (sep : string) (parts : list string) : string :=
  String.concat sep parts.

Definition lower_char (c : ascii) : ascii :=
  let n := N_of_ascii c in
  if (65 <=? n)%N && (n <=? 90)%N then ascii_of_N (n + 32) else c.

(** [s.lower()] for ASCII [s]: the letters [A] to [Z] are lowered, every
    other character is kept.  (On other text [str.lower] also lowers
    letters outside ASCII, and U+212A to [k]; that is not modelled.) *)
Fixpoint lower (s : string) : string :=
  match s with
  | EmptyString => EmptyString
  | String c s' => String (lower_char c) (lower s')
  end.

(** [s.rfind(c)]: the highest index of [c] in [s], or [-1]. *)
Fixpoint rfind_from (c : ascii) (s : string) (i last : Z) : Z :=
  match s with
  | EmptyString => last
  | String a s' => rfind_from c s' (i + 1) (if Ascii.eqb a c then i else last)
  end.

Definition rfind (c : ascii) (s : string) : Z := rfind_from c s 0 (-1).

(** [s[i:]] and [s[:i]] for [0 <= i]. *)
Fixpoint drop (n : nat) (s : string) : string :=
  match n, s with
  | O, _ => s
  | S n', String _ s' => drop n' s'
  | S _, EmptyString => EmptyString
  end.

Fixpoint take (n : nat) (s : string) : string :=
  match n, s with
  | S n', String c s' => String c (take n' s')
  | _, _ => EmptyString
  end.

(** [s[i:i+1]]: a string of length one, or empty out of range. *)
Definition slice1 (s : string) (i : Z) : string :=
  if i <? 0 then EmptyString else take 1 (drop (Z.to_nat i) s).

(** All the suffixes [s[i:]], [0 <= i <= len(s)], longest first. *)
Fixpoint suffixes (s : string) : list string :=
  s :: match s with
       | EmptyString => []
       | String _ s' => suffixes s'
       end.

End Str.

(** ** [os.path.splitext] (posixpath, through [genericpath._splitext]) *)

Module OsPath.

(** The loop [while filenameIndex < dotIndex] of [_splitext]: is some
    character of the base name before the last dot not a dot? *)
Definition has_non_dot (p : string) (from upto : Z) : bool :=
  existsb (fun k => negb (String.eqb (Str.slice1 p k) (String Str.extsep EmptyString)))
          (seqZ from (upto - from)).

Definition splitext (p : string) : string * string :=
  let sepIndex := Str.rfind Str.os_sep p in
  let dotIndex := Str.rfind Str.extsep p in
  if (sepIndex <? dotIndex) && has_non_dot p (sepIndex + 1) dotIndex
  then (Str.take (Z.to_nat dotIndex) p, Str.drop (Z.to_nat dotIndex) p)
  else (p, EmptyString).

End OsPath.

(** ** [fnmatch.translate], [re.compile] and [Pattern.search]

    The library calls of the program are modelled together, after
    CPython 3.11: the regular expression that [fnmatch.translate] writes
    is kept as the syntax tree that [re.compile] builds from it.  The
    expression is [(?s:ATOMS)\Z]: the atoms in sequence, then the end of
    the string.  ([translate] also merges consecutive stars and wraps
    [.*?fixed] in an atomic group; neither changes which strings match.) *)

Module Glob.

Inductive class_item : Type :=
| CChar (c : ascii)
| CRange (lo hi : ascii).

Inductive atom : Type :=
| AStar                                          (* [*]  ->  [.*]            *)
| AAny                                           (* [?]  ->  [.]             *)
| ALit (c : ascii)                               (* [c]  ->  [re.escape(c)]  *)
| ASet (negated : bool) (items : list class_item). (* [[...]] -> [[...]]     *)

(** A compiled pattern: [prog] is the program of [(?s:...)\Z], [source]
    the glob it came from. *)
Record pattern : Type := Pattern { source : string; prog : list atom }.

(** The scan for the closing bracket: [rest] is the text after ["["].
    [j] skips a leading ["!"], then a leading ["]"], then runs to the
    next ["]"].  [Some (stuff, after)] when it is found. *)
Fixpoint until_close (s : string) : option (string * string) :=
  match s with
  | EmptyString => None
  | String c s' =>
      if Ascii.eqb c "]" then Some (EmptyString, s')
      else match until_close s' with
           | Some (stuff, after) => Some (String c stuff, after)
           | None => None
           end
  end.

Definition cons_stuff (c : ascii) (r : option (string * string)) :
    option (string * string) :=
  match r with
  | Some (stuff, after) => Some (String c stuff, after)
  | None => None
  end.

Definition scan_after_bang (s : string) : option (string * string) :=
  match s with
  | String c s' =>
      if Ascii.eqb c "]" then cons_stuff c (until_close s') else until_close s
  | EmptyString => None
  end.

Definition scan_class (rest : string) : option (string * string) :=
  match rest with
  | String c s' =>
      if Ascii.eqb c "!" then cons_stuff c (scan_after_bang s')
      else scan_after_bang rest
  | EmptyString => None
  end.

(** The members of a bracket expression, as [translate] cuts [stuff] into
    chunks at the hyphens that make ranges: [a-b] with a character on
    each side is a range, and the search for the next such hyphen resumes
    after [b]; any other character (a backslash, a hyphen elsewhere)
    stands for itself.  A range whose end is below its start is empty and
    is removed with both its ends. *)
Fixpoint class_items (cs : list ascii) : list class_item :=
  match cs with
  | [] => []
  | c1 :: rest =>
      match rest with
      | dash :: c2 :: rest' =>
          if Ascii.eqb dash "-" then
            if (N_of_ascii c2 <? N_of_ascii c1)%N then class_items rest'
            else CRange c1 c2 :: class_items rest'
          else CChar c1 :: class_items rest
      | _ => CChar c1 :: class_items rest
      end
  end.

(** What [translate] makes of a [stuff] that did not start with ["!"],
    once the empty ranges are gone.  Nothing left: [(?!)], which matches
    no character.  Otherwise the text is written between brackets, a
    leading ["^"] or ["["] escaped; but [translate] looks at the first
    character of what is left, so that a ["!"] laid bare by the removal of
    a range negates the set (alone it gives [.]), and as the start of a
    range it leaves the hyphen and the end of the range as members. *)
Definition finish_set (items : list class_item) : atom :=
  match items with
  | CChar c :: rest =>
      if Ascii.eqb c "!" then ASet true rest else ASet false items
  | CRange lo hi :: rest =>
      if Ascii.eqb lo "!" then ASet true (CChar "-" :: CChar hi :: rest)
      else ASet false items
  | [] => ASet false []
  end.

(** [stuff] is never empty.  A leading ["!"] negates the set; then no
    member left gives [.], which is the negated empty set. *)
Definition class_of_stuff (stuff : string) : atom :=
  match stuff with
  | String c s' =>
      if Ascii.eqb c "!"
      then ASet true (class_items (String.list_ascii_of_string s'))
      else finish_set (class_items (String.list_ascii_of_string stuff))
  | EmptyString => ASet false []
  end.

(** The loop [while i < n] of [translate]; every round consumes at least
    one character, so [String.length pat] rounds are enough. *)
Fixpoint translate_loop (fuel : nat) (pat : string) : list atom :=
  match fuel with
  | O => []
  | S fuel' =>
      match pat with
      | EmptyString => []
      | String c rest =>
          if Ascii.eqb c "*" then AStar :: translate_loop fuel' rest
          else if Ascii.eqb c "?" then AAny :: translate_loop fuel' rest
          else if Ascii.eqb c "[" then
            match scan_class rest with
            | None => ALit c :: translate_loop fuel' rest
            | Some (stuff, after) =>
                class_of_stuff stuff :: translate_loop fuel' after
            end
          else ALit c :: translate_loop fuel' rest
      end
  end.

Definition translate (pat : string) : list atom :=
  translate_loop (String.length pat) pat.

(** [re.compile(fnmatch.translate(p_str))]; [None] stands for [re.error].
    [re.compile] accepts what [translate] writes, so the result is never
    [None]: the type keeps the [except re.error] branches of the program
    in the model. *)
Definition compile (p_str : string) : option pattern :=
  Some (Pattern p_str (translate p_str)).

Definition item_matches (c : ascii) (it : class_item) : bool :=
  match it with
  | CChar a => Ascii.eqb a c
  | CRange lo hi => (N_of_ascii lo <=? N_of_ascii c)%N && (N_of_ascii c <=? N_of_ascii hi)%N
  end.

Definition set_matches (negated : bool) (items : list class_item) (c : ascii) : bool :=
  xorb negated (existsb (item_matches c) items).

(** Does the program match all of [s]?  The end of the program is [\Z].
    [?] and a bracket set take one character of [s], which is one code
    point, as in [re], when [s] is ASCII. *)
Fixpoint match_atoms (r : list atom) (s : string) {struct r} : bool :=
  match r with
  | [] => match s with EmptyString => true | _ => false end
  | AStar :: r' =>
      (fix star (t : string) : bool :=
         match_atoms r' t ||
         match t with
         | EmptyString => false
         | String _ t' => star t'
         end) s
  | AAny :: r' =>
      match s with String _ s' => match_atoms r' s' | EmptyString => false end
  | ALit c :: r' =>
      match s with
      | String a s' => Ascii.eqb a c && match_atoms r' s'
      | EmptyString => false
      end
  | ASet neg items :: r' =>
      match s with
      | String a s' => set_matches neg items a && match_atoms r' s'
      | EmptyString => false
      end
  end.

(** [pattern.match(s)]: the match starts at index 0 (this is what
    [fnmatch.fnmatchcase] calls). *)
Definition re_match (p : pattern) (s : string) : bool := match_atoms (prog p) s.

(** [pattern.search(s)]: the match may start at any index. *)
Definition search (p : pattern) (s : string) : bool :=
  existsb (match_atoms (prog p)) (Str.suffixes s).

End Glob.

(** ** Diagnostics: what the program prints to [sys.stderr] *)

Inductive diag : Type :=
| SkipIgnoredDir (path : string)
| SkipExcluded (pat : string) (path : string)
| SkipNotIncluded (path : string)
| SkipBinary (path : string)
| WarnBinaryIncluded (path : string)
| WarnPathConflict (part : string)
| ErrRoot (repo_path : string)
| WarnNoGit (repo_base_name : string)
| DebugInclude (p_str : string)
| DebugExclude (p_str : string)
| ErrIncludeGlob (p_str : string)
| ErrExcludeGlob (p_str : string)
| SkipTooLarge (path : string)
| SkipSizeError (path : string)
| SkipSampleError (path : string)
| Including (path : string)
| ErrReading (path : string)
| OutputWritten (output_file : string)
| ErrWriting (output_file : string).

(** [if verbose: print(..., file=sys.stderr)] *)
Definition say (verbose : bool) (d : diag) : list diag :=
  if verbose then [d] else [].

(** ** The binary heuristic *)

Definition DEFAULT_BINARY_EXTENSIONS : gset string :=
  list_to_set
    [".exe"; ".dll"; ".so"; ".a"; ".o"; ".obj";
     ".jpg"; ".jpeg"; ".png"; ".gif"; ".bmp"; ".tiff"; ".webp";
     ".mp3"; ".wav"; ".ogg"; ".flac";
     ".mp4"; ".avi"; ".mov"; ".mkv"; ".webm";
     ".pdf"; ".doc"; ".docx"; ".xls"; ".xlsx"; ".ppt"; ".pptx";
     ".zip"; ".tar"; ".gz"; ".bz2"; ".rar"; ".7z";
     ".iso"; ".img"; ".bin"; ".dat";
     ".pyc"; ".pyo";
     ".class"; ".jar";
     ".sqlite"; ".db";
     ".eot"; ".otf"; ".ttf"; ".woff"; ".woff2"].

Definition DEFAULT_IGNORE_DIRS : gset string :=
  list_to_set
    [".git"; ".hg"; ".svn";
     "__pycache__"; ".pytest_cache"; ".mypy_cache";
     "node_modules"; "bower_components";
     ".vscode"; ".idea"; ".project"; ".settings";
     "build"; "dist"; "target"; "out";
     "venv"; ".venv"; "env"; ".env"].

Definition MAX_FILE_SIZE_DEFAULT_MB : Z := 5.
Definition BYTES_IN_MB : Z := 1024 * 1024.

Module PyFloat.

(** [float(n)] for an [int] below [2^53], where the conversion is exact. *)
Definition of_int (n : Z) : float := PrimFloat.of_uint63 (Uint63.of_Z n).

(** The double written [0.1] in the source: [0x1.999999999999ap-4]. *)
Definition tenth : float := 0x1.999999999999ap-4%float.

(** [n * x] for an [int] and a [float]: the [int] is converted first. *)
Definition int_mul (n : Z) (x : float) : float := PrimFloat.mul (of_int n) x.

(** [n > x] for an [int] and a [float]. *)
Definition int_gt (n : Z) (x : float) : bool := PrimFloat.ltb x (of_int n).

End PyFloat.

(** [sample.count(b'\x00')] *)
Definition count_null (sample : list byte) : Z :=
  Z.of_nat (length (List.filter (fun b => Byte.eqb b Byte.x00) sample)).

(** [sample.count(b'\x00') > len(sample) * 0.1], in double precision. *)
Definition null_heavy (sample : list byte) : bool :=
  PyFloat.int_gt (count_null sample)
                 (PyFloat.int_mul (Z.of_nat (length sample)) PyFloat.tenth).

Definition is_likely_binary_file (filepath : string) (file_content_sample : list byte) : bool :=
  let ext := snd (OsPath.splitext filepath) in
  if bool_decide (Str.lower ext ∈ DEFAULT_BINARY_EXTENSIONS) then true
  else if null_heavy file_content_sample then true
  else false.

(** ** The file filter *)

(** Truth value of [file_content_sample]: [None] and [b''] are false. *)
Definition sample_truthy (file_content_sample : option (list byte)) : bool :=
  match file_content_sample with
  | Some (_ :: _) => true
  | _ => false
  end.

Definition sample_bytes (file_content_sample : option (list byte)) : list byte :=
  default [] file_content_sample.

(** [any(pattern.search(path) for pattern in regexes)], as the two loops
    over [include_regexes] compute it. *)
Definition any_search (regexes : list Glob.pattern) (path : string) : bool :=
  existsb (fun pattern => Glob.search pattern path) regexes.

(** Stage 1: [any(part in ignore_dirs_set for part in path_parts)] where
    [path_parts] is the set of the path's components. *)
Definition has_ignored_part (path : string) (ignore_dirs_set : gset string) : bool :=
  let path_parts : gset string := list_to_set (Str.split Str.os_sep path) in
  existsb (fun part => bool_decide (part ∈ ignore_dirs_set)) (elements path_parts).

(** [should_process_file]: the decision and the lines printed on the way. *)
Definition should_process_file
    (filepath_relative_to_repo : string)
    (include_regexes exclude_regexes : list Glob.pattern)
    (ignore_dirs_set : gset string)
    (is_binary_check : bool)
    (file_content_sample : option (list byte))
    (verbose : bool) : bool * list diag :=
  let path := filepath_relative_to_repo in
  (* 1. ignored directory component *)
  if has_ignored_part path ignore_dirs_set then
    (false, say verbose (SkipIgnoredDir path))
  else
  (* 2. exclude patterns first *)
  match List.find (fun pattern => Glob.search pattern path) exclude_regexes with
  | Some pattern => (false, say verbose (SkipExcluded (Glob.source pattern) path))
  | None =>
  (* 3. include patterns, if there are any *)
  let included_by_regex := any_search include_regexes path in
  if bool_decide (include_regexes ≠ []) && negb included_by_regex then
    (false, say verbose (SkipNotIncluded path))
  else
  (* 4. binary heuristic *)
  if is_binary_check
     && sample_truthy file_content_sample
     && is_likely_binary_file path (sample_bytes file_content_sample)
  then
    let is_explicitly_included := any_search include_regexes path in
    if negb is_explicitly_included
    then (false, say verbose (SkipBinary path))
    else (true, say verbose (WarnBinaryIncluded path))
  else (true, [])
  end.

(** ** The tree renderer *)

(** [sorted(l, key=key)]: Python's sort is stable and compares keys with
    [<] only.  Insertion from the right, each element placed before the
    first one whose key is not smaller, is such a sort. *)
Section PySorted.
Context {A : Type} (key : A -> string).

Fixpoint insert_sorted (x : A) (l : list A) : list A :=
  match l with
  | [] => [x]
  | y :: l' =>
      if String.ltb (key y) (key x) then y :: insert_sorted x l'
      else x :: l
  end.

Definition py_sorted (l : list A) : list A := foldr insert_sorted [] l.
End PySorted.

Module Tree.

Definition nl : string := String (ascii_of_N 10) EmptyString.

(** A value of the nested dictionary: [None] marks a file, a [dict] is a
    directory.  A [dict] keeps its keys in insertion order. *)
Inductive node : Type :=
| Leaf
| Dir (items : list (string * node)).

Definition dict : Type := list (string * node).

Fixpoint dict_get (d : dict) (k : string) : option node :=
  match d with
  | [] => None
  | (k', v) :: d' => if String.eqb k' k then Some v else dict_get d' k
  end.

(** [d[k] = v]: an existing key keeps its place, a new one goes last. *)
Fixpoint dict_set (d : dict) (k : string) (v : node) : dict :=
  match d with
  | [] => [(k, v)]
  | (k', v') :: d' =>
      if String.eqb k' k then (k', v) :: d' else (k', v') :: dict_set d' k v
  end.

(** The inner loop [for i, part in enumerate(parts)], started at the
    dictionary [current_level]; the result is that dictionary after the
    loop.  [setdefault] on a key that holds [None] returns [None]: the
    program warns and goes on in a new dictionary that no one refers to,
    so what it stores there is lost. *)
Fixpoint insert_parts (parts : list string) (current_level : dict) :
    dict * list diag :=
  match parts with
  | [] => (current_level, [])
  | part :: rest =>
      match rest with
      | [] => (dict_set current_level part Leaf, [])
      | _ :: _ =>
          match dict_get current_level part with
          | None =>
              let '(sub, w) := insert_parts rest [] in
              (dict_set current_level part (Dir sub), w)
          | Some (Dir sub) =>
              let '(sub', w) := insert_parts rest sub in
              (dict_set current_level part (Dir sub'), w)
          | Some Leaf =>
              let '(_, w) := insert_parts rest [] in
              (current_level, WarnPathConflict part :: w)
          end
      end
  end.

(** The outer loop [for path_str in ...]. *)
Fixpoint build_structure (paths : list string) (root_structure : dict) :
    dict * list diag :=
  match paths with
  | [] => (root_structure, [])
  | path_str :: paths' =>
      let '(root1, w1) := insert_parts (Str.split Str.os_sep path_str) root_structure in
      let '(root2, w2) := build_structure paths' root1 in
      (root2, w1 ++ w2)
  end.

(** [sorted(list(set(filepaths)))].  The order in which CPython lists a
    set is not specified; the model lists it by first occurrence, and
    [sorted_unique_any_listing] shows that the order does not matter. *)
Definition sorted_unique (filepaths : list string) : list string :=
  py_sorted id (remove_dups filepaths).

(** One entry of [items]: the name, [isinstance(child_node, dict)], and
    the lines of the child as a function of its prefix. *)
Record entry : Type :=
  Entry { e_name : string; e_is_dir : bool; e_lines : string -> list string }.

(** The loop [for i, (name, child_node) in enumerate(items)]. *)
Fixpoint emit (current_prefix : string) (items : list entry) : list string :=
  match items with
  | [] => []
  | e :: rest =>
      let is_last_entry_in_level := bool_decide (rest = []) in
      let connector := if is_last_entry_in_level then "└── " else "├── " in
      let child_prefix_extension :=
        if is_last_entry_in_level then "    " else "│   " in
      (current_prefix +:+ connector +:+ e_name e)
        :: (if e_is_dir e
            then e_lines e (current_prefix +:+ child_prefix_extension)
            else [])
        ++ emit current_prefix rest
  end.

(** [_build_tree_lines_recursive].  The sort reads the names only, so
    the lines of each child are prepared, as a function of the prefix,
    before the items are ordered; a [Leaf] has none. *)
Fixpoint build_tree_lines (nd : node) (current_prefix : string) : list string :=
  match nd with
  | Leaf => []
  | Dir items =>
      let entries :=
        (fix go (l : list (string * node)) : list entry :=
           match l with
           | [] => []
           | (name, child_node) :: l' =>
               Entry name
                     (match child_node with Dir _ => true | Leaf => false end)
                     (build_tree_lines child_node)
               :: go l'
           end) items in
      emit current_prefix (py_sorted (fun e => Str.lower (e_name e)) entries)
  end.

Definition header (repo_name : string) : string :=
  "Repository Structure (" +:+ repo_name +:+ "):".

(** [generate_tree_display]: the text, and the conflict warnings. *)
Definition generate_tree_display (filepaths : list string) (repo_name : string) :
    string * list diag :=
  match filepaths with
  | [] => (header repo_name +:+ nl +:+ "(No files included)" +:+ nl +:+ "---" +:+ nl, [])
  | _ :: _ =>
      let '(root_structure, warnings) := build_structure (sorted_unique filepaths) [] in
      let tree_lines := header repo_name :: build_tree_lines (Dir root_structure) "" in
      (Str.join nl tree_lines +:+ nl +:+ "---" +:+ nl, warnings)
  end.

End Tree.

(** ** The file system and the process, as the program sees them *)

Module FS.

(** What the three accesses of the loop body return for one file:
    [os.path.getsize] ([None]: [OSError]), the bytes read in mode ['rb']
    ([None]: [IOError]), and the text read in mode ['r'] with
    [encoding='utf-8', errors='ignore'] ([None]: an exception). *)
Record file : Type :=
  File { f_size : option Z; f_bytes : option (list byte); f_text : option string }.

(** A directory: its files and its sub-directories, each in the order
    in which [os.scandir] lists them. *)
Inductive dir : Type :=
| Dir (files : list (string * file)) (subdirs : list (string * dir)).

Definition files_of (d : dir) : list (string * file) :=
  match d with Dir fs _ => fs end.
Definition subdirs_of (d : dir) : list (string * dir) :=
  match d with Dir _ ds => ds end.

(** [os.path.relpath(os.path.join(root, filename), abs_repo_path)], with
    [root] kept relative to the repository ([""] at its top). *)
Definition rel_join (root filename : string) : string :=
  if String.eqb root "" then filename
  else root +:+ String Str.os_sep "" +:+ filename.

(** [os.walk(abs_repo_path, topdown=True)] together with the pruning
    [dirs[:] = [d for d in dirs if d not in current_ignore_dirs]] that
    the loop body does on the list the generator goes on to read: the
    files in the order in which the inner loop meets them. *)
Fixpoint walk (ignore : gset string) (root : string) (d : dir) :
    list (string * file) :=
  match d with
  | Dir files subdirs =>
      map (fun nf => (rel_join root (fst nf), snd nf)) files
      ++ (fix descend (l : list (string * dir)) : list (string * file) :=
            match l with
            | [] => []
            | (name, sub) :: l' =>
                (if bool_decide (name ∈ ignore) then []
                 else walk ignore (rel_join root name) sub)
                ++ descend l'
            end) subdirs
  end.

End FS.

(** The arguments of [ingest_repo], as [main] passes them. *)
Record args : Type := Args {
  repo_path : string;
  include_patterns : option (list string);
  exclude_patterns : option (list string);
  output_file : option string;
  max_file_size_mb : Q;
  verbose : bool;
  no_git_check : bool
}.

(** The environment of a run: the directory found at a path ([None] when
    [os.path.isdir] is false), [os.path.basename(os.path.abspath(path))],
    and whether opening and writing the output file succeeds. *)
Record world : Type := World {
  w_dir : string -> option FS.dir;
  w_basename : string -> string;
  w_writable : string -> bool
}.

(** What a run leaves behind. *)
Record effects : Type := Effects {
  stderr : list diag;
  stdout : string;
  written : option (string * string)
}.

(** How [ingest_repo] ends: it returns, or [sys.exit(status)] is raised. *)
Inductive outcome : Type :=
| Returned
| SysExit (status : Z).

(** One of the two compilation loops; the first component is [None] when
    [re.compile] raised: the program prints the error and calls
    [sys.exit(1)]. *)
Fixpoint compile_patterns (debug error : string -> diag) (verbose : bool)
    (patterns : list string) : option (list Glob.pattern) * list diag :=
  match patterns with
  | [] => (Some [], [])
  | p_str :: rest =>
      match Glob.compile p_str with
      | None => (None, say verbose (debug p_str) ++ [error p_str])
      | Some re =>
          let '(res, d) := compile_patterns debug error verbose rest in
          ((re ::.) <$> res, say verbose (debug p_str) ++ d)
      end
  end.

(** The state of the traversal loop. *)
Record loop_state : Type := LoopState {
  all_content_parts : list string;
  included_relative_paths : list string;
  printed : list diag
}.

Definition print_all (st : loop_state) (d : list diag) : loop_state :=
  LoopState (all_content_parts st) (included_relative_paths st) (printed st ++ d).

(** [f"--- {relative_filepath} ---\n{content}\n"] *)
Definition content_part (relative_filepath content : string) : string :=
  "--- " +:+ relative_filepath +:+ " ---" +:+ Tree.nl +:+ content +:+ Tree.nl.

(** [file_size > max_file_size_bytes]: an [int] against a [float]; Python
    compares the two exactly.  A finite double is a rational, and its
    product with [BYTES_IN_MB = 2^20] is exact. *)
Definition too_large (file_size : Z) (max_file_size_bytes : Q) : bool :=
  negb (Qle_bool (inject_Z file_size) max_file_size_bytes).

Section Loop.
Variables (compiled_include_regexes compiled_exclude_regexes : list Glob.pattern).
Variables (current_ignore_dirs : gset string) (max_file_size_bytes : Q).
Variable (verbose : bool).

(** The body of [for filename in files]. *)
Definition process_file (st : loop_state) (relative_filepath : string)
    (f : FS.file) : loop_state :=
  match FS.f_size f with
  | None => print_all st (say verbose (SkipSizeError relative_filepath))
  | Some file_size =>
      if too_large file_size max_file_size_bytes then
        print_all st (say verbose (SkipTooLarge relative_filepath))
      else
        match FS.f_bytes f with
        | None => print_all st (say verbose (SkipSampleError relative_filepath))
        | Some bytes =>
            let file_content_sample_for_check := take 1024 bytes in
            let '(ok, d) :=
              should_process_file relative_filepath
                compiled_include_regexes compiled_exclude_regexes
                current_ignore_dirs true
                (Some file_content_sample_for_check) verbose in
            if ok then
              match FS.f_text f with
              | Some content =>
                  LoopState
                    (all_content_parts st ++ [content_part relative_filepath content])
                    (included_relative_paths st ++ [relative_filepath])
                    (printed st ++ d ++ say verbose (Including relative_filepath))
              | None =>
                  print_all st (d ++ say verbose (ErrReading relative_filepath))
              end
            else print_all st d
        end
  end.

Definition traverse (st : loop_state) (found : list (string * FS.file)) : loop_state :=
  foldl (fun st nf => process_file st (fst nf) (snd nf)) st found.

End Loop.

(** Truth value of [output_file]: [None] and [""] are false. *)
Definition output_target (output_file : option string) : option string :=
  match output_file with
  | Some EmptyString => None
  | other => other
  end.

Definition has_git_dir (d : FS.dir) : bool :=
  existsb (fun nd => String.eqb (fst nd) ".git") (FS.subdirs_of d).

(** [ingest_repo] *)
Definition ingest_repo (w : world) (a : args) : outcome * effects :=
  match w_dir w (repo_path a) with
  | None => (Returned, Effects [ErrRoot (repo_path a)] "" None)
  | Some top =>
      let repo_base_name := w_basename w (repo_path a) in
      let e0 :=
        if negb (no_git_check a) && negb (has_git_dir top)
        then [WarnNoGit repo_base_name] else [] in
      match compile_patterns DebugInclude ErrIncludeGlob (verbose a)
                             (default [] (include_patterns a)) with
      | (None, d1) => (SysExit 1, Effects (e0 ++ d1) "" None)
      | (Some compiled_include_regexes, d1) =>
      match compile_patterns DebugExclude ErrExcludeGlob (verbose a)
                             (default [] (exclude_patterns a)) with
      | (None, d2) => (SysExit 1, Effects (e0 ++ d1 ++ d2) "" None)
      | (Some compiled_exclude_regexes, d2) =>
          let current_ignore_dirs := DEFAULT_IGNORE_DIRS in
          let max_file_size_bytes := (max_file_size_mb a * inject_Z BYTES_IN_MB)%Q in
          let st :=
            traverse compiled_include_regexes compiled_exclude_regexes
                     current_ignore_dirs max_file_size_bytes (verbose a)
                     (LoopState [] [] (e0 ++ d1 ++ d2))
                     (FS.walk current_ignore_dirs "" top) in
          let '(tree_header, warnings) :=
            Tree.generate_tree_display (included_relative_paths st) repo_base_name in
          let final_output := tree_header +:+ Str.join Tree.nl (all_content_parts st) in
          let err := printed st ++ warnings in
          match output_target (output_file a) with
          | Some out =>
              if w_writable w out
              then (Returned, Effects (err ++ [OutputWritten out]) "" (Some (out, final_output)))
              else (Returned, Effects (err ++ [ErrWriting out]) "" None)
          | None => (Returned, Effects err final_output None)
          end
      end
      end
  end.

(** [main], after [parse_args]: the exit status of the process is 0 when
    [ingest_repo] returns, and the argument of [sys.exit] otherwise. *)
Definition main (w : world) (a : args) : Z * effects :=
  match ingest_repo w a with
  | (Returned, e) => (0, e)
  | (SysExit status, e) => (status, e)
  end.

(** * Specifications

    The notions in which the properties below are stated. *)

(** Stages 1 to 3 of the filter: no ignored component, no exclude pattern
    found in the path, and an include pattern found when there are any. *)
Definition passes_patterns (path : string)
    (include_regexes exclude_regexes : list Glob.pattern)
    (ignore_dirs_set : gset string) : bool :=
  negb (has_ignored_part path ignore_dirs_set)
  && negb (any_search exclude_regexes path)
  && (bool_decide (include_regexes = []) || any_search include_regexes path).

(** Stage 4 rejects: the check is on, the sample is not empty, the file
    looks binary and no include pattern is found in the path. *)
Definition rejected_as_binary (path : string) (include_regexes : list Glob.pattern)
    (is_binary_check : bool) (file_content_sample : option (list byte)) : bool :=
  is_binary_check
  && sample_truthy file_content_sample
  && is_likely_binary_file path (sample_bytes file_content_sample)
  && negb (any_search include_regexes path).

(** The comparison in double precision and the exact one agree on a sample
    of [len] bytes of which [count] are null. *)
Definition null_test_agrees (len count : Z) : bool :=
  Bool.eqb (PyFloat.int_gt count (PyFloat.int_mul len PyFloat.tenth))
           (len <? 10 * count).

(** They agree on every sample of at most [bound] bytes. *)
Definition null_test_table (bound : Z) : bool :=
  forallb (fun len => forallb (null_test_agrees len) (seqZ 0 (len + 1)))
          (seqZ 0 (bound + 1)).

(** The pattern compiled from a glob. *)
Definition glob (p_str : string) : Glob.pattern :=
  Glob.Pattern p_str (Glob.translate p_str).

(** [s.isascii()]: every character is below 128.  On such a string a
    character is a code point and [Str.lower] is [str.lower]. *)
Definition is_ascii (s : string) : bool :=
  forallb (fun c => (N_of_ascii c <? 128)%N) (String.list_ascii_of_string s).

(** The extension test of [is_likely_binary_file]. *)
Definition binary_extension (path : string) : bool :=
  bool_decide (Str.lower (OsPath.splitext path).2 ∈ DEFAULT_BINARY_EXTENSIONS).

(** Strictly more than 10% of the bytes of the sample are null. *)
Definition null_rich (sample : list byte) : bool :=
  bool_decide (Z.of_nat (length sample) < 10 * count_null sample).

(** Shell-glob matching of a whole string, on the parsed pattern: [*]
    takes any run of characters (a separator too), [?] one character, a
    bracket expression one character of the set, any other character
    itself; the pattern and the string end together. *)
Inductive glob_matches : list Glob.atom -> string -> Prop :=
| GM_end : glob_matches [] EmptyString
| GM_star_none r s :
    glob_matches r s -> glob_matches (Glob.AStar :: r) s
| GM_star_more r c s :
    glob_matches (Glob.AStar :: r) s -> glob_matches (Glob.AStar :: r) (String c s)
| GM_any r c s :
    glob_matches r s -> glob_matches (Glob.AAny :: r) (String c s)
| GM_lit r c s :
    glob_matches r s -> glob_matches (Glob.ALit c :: r) (String c s)
| GM_set r negated items c s :
    Glob.set_matches negated items c = true ->
    glob_matches r s -> glob_matches (Glob.ASet negated items :: r) (String c s).

(** The order on keys that [sorted] produces. *)
Definition key_le {A : Type} (key : A -> string) (x y : A) : Prop :=
  String.le (key x) (key y).

(** The entry that [_build_tree_lines_recursive] makes of an item. *)
Definition entry_of (item : string * Tree.node) : Tree.entry :=
  Tree.Entry item.1
             (match item.2 with Tree.Dir _ => true | Tree.Leaf => false end)
             (Tree.build_tree_lines item.2).

(** The items of a directory in the order in which they are printed. *)
Definition children_in_order (items : Tree.dict) : list Tree.entry :=
  py_sorted (fun e => Str.lower (Tree.e_name e)) (map entry_of items).

(** Every name stored in the structure, at any depth, is ASCII. *)
Fixpoint ascii_names (nd : Tree.node) : bool :=
  match nd with
  | Tree.Leaf => true
  | Tree.Dir items =>
      (fix go (l : list (string * Tree.node)) : bool :=
         match l with
         | [] => true
         | (name, child) :: l' => is_ascii name && ascii_names child && go l'
         end) items
  end.

(** The text printed for no file at all. *)
Definition no_files_text (repo_name : string) : string :=
  Tree.header repo_name +:+ Tree.nl +:+ "(No files included)" +:+ Tree.nl
  +:+ "---" +:+ Tree.nl.

Section AcceptedFiles.
Variables (incl excl : list Glob.pattern) (ign : gset string) (max_bytes : Q).

(** A file is accepted when its size is known and within the limit, its
    sample can be read, the filter says yes and its text can be read; the
    result is its path with its text. *)
Definition accepted_file (nf : string * FS.file) : option (string * string) :=
  match FS.f_size nf.2, FS.f_bytes nf.2, FS.f_text nf.2 with
  | Some file_size, Some bytes, Some content =>
      if negb (too_large file_size max_bytes)
         && (should_process_file nf.1 incl excl ign true (Some (take 1024 bytes)) false).1
      then Some (nf.1, content)
      else None
  | _, _, _ => None
  end.

(** The accepted files among those found, in the order of discovery. *)
Definition accepted_files (found : list (string * FS.file)) : list (string * string) :=
  omap accepted_file found.

(** The record of an accepted file in the body of the output. *)
Definition record_of (pc : string * string) : string := content_part pc.1 pc.2.

End AcceptedFiles.

(** A small repository, for the examples: a readable file holding [text]. *)
Definition ex_file (text : string) : FS.file :=
  FS.File (Some (Z.of_nat (String.length text)))
          (Some (String.list_byte_of_string text))
          (Some text).

Definition ex_top : FS.dir :=
  FS.Dir [("b.py", ex_file "print(1)"); ("img.png", ex_file "PNG");
          ("A.txt", ex_file "hello")]
         [(".git", FS.Dir [("config", ex_file "x")] []);
          ("src", FS.Dir [("m.py", ex_file "m")] [])].

(** The repository is at ["repo"]; no output file can be written. *)
Definition ex_world : world :=
  World (fun path => if String.eqb path "repo" then Some ex_top else None)
        (fun _ => "repo")
        (fun _ => false).

(** A run with the default options on [path]. *)
Definition ex_args (path : string) (out : option string) : args :=
  Args path None None out 5 false false.

(** A repository with one file, [a.py], whose text is [x=1]. *)
Definition one_file_world : world :=
  World (fun path =>
           if String.eqb path "repo"
           then Some (FS.Dir [("a.py", ex_file "x=1")] [(".git", FS.Dir [] [])])
           else None)
        (fun _ => "repo")
        (fun _ => false).

(** A record as the specification words it: the line [--- path ---], the
    text of the file, then a blank line. *)
Definition record_as_specified (pc : string * string) : string :=
  "--- " +:+ pc.1 +:+ " ---" +:+ Tree.nl +:+ pc.2 +:+ Tree.nl +:+ Tree.nl.

(** The output as the specification words it: the tree, then the records
    one after the other. *)
Definition output_as_specified (tree_header : string)
    (accepted : list (string * string)) : string :=
  tree_header +:+ String.concat "" (map record_as_specified accepted).

(** The bytes limit of a run. *)
Definition max_bytes_of (a : args) : Q := (max_file_size_mb a * inject_Z BYTES_IN_MB)%Q.

(** ** Notions for the further properties *)

(** A line that reports a rejection. *)
Definition diag_is_skip (d : diag) : bool :=
  match d with
  | SkipIgnoredDir _ | SkipExcluded _ _ | SkipNotIncluded _ | SkipBinary _ => true
  | _ => false
  end.

(** A glob without [*], [?] and [[]. *)
Definition plain_glob (g : string) : bool :=
  forallb (fun c => negb (Ascii.eqb c "*") && negb (Ascii.eqb c "?")
                    && negb (Ascii.eqb c "["))
          (String.list_ascii_of_string g).

(** The value found by following [parts] down the nested dictionaries. *)
Fixpoint lookup_path (parts : list string) (d : Tree.dict) : option Tree.node :=
  match parts with
  | [] => None
  | part :: rest =>
      match Tree.dict_get d part with
      | None => None
      | Some nd =>
          match rest with
          | [] => Some nd
          | _ :: _ =>
              match nd with
              | Tree.Dir sub => lookup_path rest sub
              | Tree.Leaf => None
              end
          end
      end
  end.

(** No path of the list continues another one: no file is also a
    directory on the way to another file. *)
Definition prefix_free (paths : list (list string)) : Prop :=
  forall a b, a ∈ paths -> b ∈ paths -> a `prefix_of` b -> a = b.

(** The number of entries, files and directories, below a node. *)
Fixpoint count_entries (nd : Tree.node) : nat :=
  match nd with
  | Tree.Leaf => O
  | Tree.Dir items =>
      (fix go (l : list (string * Tree.node)) : nat :=
         match l with
         | [] => O
         | (_, child) :: l' => S (count_entries child + go l')%nat
         end) items
  end.

(** A measure for induction on nodes. *)
Fixpoint node_size (nd : Tree.node) : nat :=
  match nd with
  | Tree.Leaf => 1
  | Tree.Dir items =>
      S ((fix go (l : list (string * Tree.node)) : nat :=
            match l with
            | [] => O
            | (_, child) :: l' => (node_size child + go l')%nat
            end) items)
  end.

(** No name on the way of [q] is stored as a file in [d]. *)
Definition no_conflict (q : list string) (d : Tree.dict) : Prop :=
  forall pre rest, q = pre ++ rest -> rest <> [] ->
                   lookup_path pre d <> Some Tree.Leaf.

(** The lines that an entry contributes besides its own. *)
Definition lines_below (e : Tree.entry) (current_prefix : string) : list string :=
  if Tree.e_is_dir e then Tree.e_lines e current_prefix else [].

(** A file that cannot be read in one of the three ways. *)
Definition unreadable (f : FS.file) : Prop :=
  FS.f_size f = None \/ FS.f_bytes f = None \/ FS.f_text f = None.

(** A line that is printed whether or not [verbose] is on. *)
Definition diag_is_unconditional (d : diag) : bool :=
  match d with
  | WarnNoGit _ | WarnPathConflict _ | OutputWritten _ | ErrWriting _ => true
  | _ => false
  end.

(** A directory without the sub-directories, at any depth, whose name is
    ignored. *)
Fixpoint prune (ignore : gset string) (d : FS.dir) : FS.dir :=
  match d with
  | FS.Dir files subdirs =>
      FS.Dir files
        ((fix go (l : list (string * FS.dir)) : list (string * FS.dir) :=
            match l with
            | [] => []
            | (name, sub) :: l' =>
                if bool_decide (name ∈ ignore) then go l'
                else (name, prune ignore sub) :: go l'
            end) subdirs)
  end.

(** * Properties *)

(** ** The file filter *)

Lemma find_search_none (regexes : list Glob.pattern) (path : string) :
  List.find (fun pattern => Glob.search pattern path) regexes = None
  <-> any_search regexes path = false.
Proof.
  unfold any_search. induction regexes as [|re res IH]; simpl; [done|].
  destruct (Glob.search re path); simpl; [split; discriminate | exact IH].
Qed.

Lemma find_search_some (regexes : list Glob.pattern) (path : string) pattern :
  List.find (fun pattern => Glob.search pattern path) regexes = Some pattern
  -> any_search regexes path = true.
Proof.
  intros H. destruct (any_search regexes path) eqn:E; [done|].
  apply find_search_none in E. congruence.
Qed.

(** The decision of [should_process_file], whatever it prints. *)
Lemma should_process_file_decision path incl excl ign ibc sample v :
  (should_process_file path incl excl ign ibc sample v).1
  = passes_patterns path incl excl ign && negb (rejected_as_binary path incl ibc sample).
Proof.
  unfold should_process_file, passes_patterns, rejected_as_binary.
  destruct (has_ignored_part path ign); simpl; [done|].
  destruct (List.find _ excl) as [pattern|] eqn:Hfind.
  - apply find_search_some in Hfind. rewrite Hfind. done.
  - apply find_search_none in Hfind. rewrite Hfind. simpl.
    assert (bool_decide (incl ≠ []) = negb (bool_decide (incl = []))) as ->.
    { by destruct incl. }
    destruct (any_search incl path), (bool_decide (incl = [])), ibc,
      (sample_truthy sample), (is_likely_binary_file path (sample_bytes sample));
      done.
Qed.

(** *** The null-byte test in double precision *)

Lemma null_test_table_1024 : null_test_table 1024 = true.
Proof. vm_cast_no_check (eq_refl true). Qed.

Lemma null_test_table_spec (bound len count : Z) :
  null_test_table bound = true ->
  0 <= len <= bound -> 0 <= count <= len ->
  null_test_agrees len count = true.
Proof.
  unfold null_test_table. intros Ht Hlen Hcount.
  rewrite forallb_forall in Ht.
  assert (In len (seqZ 0 (bound + 1))) as Hin1.
  { apply list_elem_of_In, elem_of_seqZ. lia. }
  specialize (Ht len Hin1). rewrite forallb_forall in Ht.
  apply Ht. apply list_elem_of_In, elem_of_seqZ. lia.
Qed.

Lemma count_null_bounds (sample : list byte) :
  0 <= count_null sample <= Z.of_nat (length sample).
Proof.
  unfold count_null. split; [lia|].
  apply inj_le. induction sample as [|b bs IH]; simpl; [lia|].
  destruct (Byte.eqb b Byte.x00); simpl; lia.
Qed.

(** For a sample of at most 1024 bytes (what [read(1024)] returns) the
    comparison in double precision is the exact one: more than a tenth of
    the bytes are null. *)
Lemma null_heavy_exact (sample : list byte) :
  Z.of_nat (length sample) <= 1024 ->
  null_heavy sample = bool_decide (Z.of_nat (length sample) < 10 * count_null sample).
Proof.
  intros Hlen. pose proof (count_null_bounds sample) as Hc.
  assert (null_test_agrees (Z.of_nat (length sample)) (count_null sample) = true) as Hag.
  { apply (null_test_table_spec 1024); [exact null_test_table_1024 | lia | lia]. }
  unfold null_test_agrees in Hag. apply Bool.eqb_prop in Hag.
  unfold null_heavy. rewrite Hag.
  destruct (Z.ltb_spec (Z.of_nat (length sample)) (10 * count_null sample));
    [by rewrite bool_decide_eq_true_2 | rewrite bool_decide_eq_false_2; [done|lia]].
Qed.

Lemma is_likely_binary_file_exact (path : string) (sample : list byte) :
  Z.of_nat (length sample) <= 1024 ->
  is_likely_binary_file path sample = binary_extension path || null_rich sample.
Proof.
  intros Hlen. unfold is_likely_binary_file, binary_extension, null_rich.
  rewrite (null_heavy_exact sample Hlen).
  by destruct (bool_decide (_ ∈ _)), (bool_decide (_ < _)).
Qed.

(** With [verbose] off the filter prints nothing. *)
Lemma should_process_file_quiet path incl excl ign ibc sample :
  (should_process_file path incl excl ign ibc sample false).2 = [].
Proof.
  unfold should_process_file.
  repeat (match goal with
          | |- context [if ?b then _ else _] => destruct b
          | |- context [match ?o with Some _ => _ | None => _ end] => destruct o
          end; simpl; try done).
Qed.

(** C3. Exclusion takes precedence: a path in which some exclude pattern
    is found is rejected, whatever the include patterns, the ignored
    names, the sample and the flags are. *)
Theorem exclude_takes_precedence path incl excl ign ibc sample v :
  (exists pattern, In pattern excl /\ Glob.search pattern path = true) ->
  (should_process_file path incl excl ign ibc sample v).1 = false.
Proof.
  intros Hex. rewrite should_process_file_decision. unfold passes_patterns.
  assert (any_search excl path = true) as ->.
  { unfold any_search. by apply existsb_exists. }
  by rewrite andb_false_r.
Qed.

(** [src/app.py] matches the include pattern [*.py] and the exclude
    pattern [src/*]: it is rejected. *)
Lemma exclude_takes_precedence_witness :
  (should_process_file "src/app.py" [glob "*.py"] [glob "src/*"]
     DEFAULT_IGNORE_DIRS true (Some [Byte.x61]) false).1 = false.
Proof.
  apply exclude_takes_precedence.
  exists (glob "src/*"). split; [left; reflexivity | vm_compute; reflexivity].
Defined.

(** C9. The decision of the filter with [verbose] on is its decision with
    [verbose] off, and with [verbose] off nothing is printed. *)
Theorem verbose_does_not_change_decision path incl excl ign ibc sample :
  (should_process_file path incl excl ign ibc sample true).1
  = (should_process_file path incl excl ign ibc sample false).1
  /\ (should_process_file path incl excl ign ibc sample false).2 = [].
Proof.
  split; [by rewrite !should_process_file_decision|].
  apply should_process_file_quiet.
Qed.

(** C10. With an empty sample the binary stage does nothing: the decision
    is that of stages 1 to 3.  So the empty file [docs/empty.pdf], whose
    extension is a binary one, is accepted without any include pattern,
    by the filter and by the traversal, whose sample of a zero-byte file
    is empty. *)
Theorem empty_sample_skips_binary_stage path incl excl ign ibc v :
  (should_process_file path incl excl ign ibc (Some []) v).1
  = passes_patterns path incl excl ign
  /\ (binary_extension "docs/empty.pdf" = true
      /\ (should_process_file "docs/empty.pdf" [] [] DEFAULT_IGNORE_DIRS true
            (Some []) v).1 = true
      /\ included_relative_paths
           (traverse [] [] DEFAULT_IGNORE_DIRS (5 * inject_Z BYTES_IN_MB)%Q v
              (LoopState [] [] [])
              [("docs/empty.pdf", FS.File (Some 0) (Some []) (Some ""))])
         = ["docs/empty.pdf"]).
Proof.
  split.
  - rewrite should_process_file_decision. unfold rejected_as_binary. simpl.
    by rewrite andb_false_r, andb_true_r.
  - split; [vm_compute; reflexivity|]. split.
    + rewrite should_process_file_decision. vm_compute. reflexivity.
    + destruct v; vm_compute; reflexivity.
Qed.

(** C2, as stated, fails: [img.png] has a binary extension, passes stages
    1 to 3 and matches no include pattern, yet with an empty sample the
    filter accepts it. *)
Lemma binary_extension_empty_sample_accepted :
  binary_extension "img.png" = true
  /\ passes_patterns "img.png" [] [] DEFAULT_IGNORE_DIRS = true
  /\ any_search [] "img.png" = false
  /\ (should_process_file "img.png" [] [] DEFAULT_IGNORE_DIRS true (Some []) false).1 = true.
Proof. vm_compute. done. Qed.

(** C2, amended. For an ASCII path and a sample that is not empty (and of
    at most 1024 bytes, as [read(1024)] returns it): the file is
    classified binary exactly when its extension, lower-cased, is a
    binary one or strictly more than 10% of the sample is null; a file
    that passes stages 1 to 3 is then accepted exactly when it is not
    classified binary or some include pattern is found in its path.  (The
    path is ASCII so that [Str.lower] is the program's [str.lower].) *)
Theorem binary_stage_decision path incl excl ign sample v :
  is_ascii path = true ->
  sample <> [] ->
  Z.of_nat (length sample) <= 1024 ->
  passes_patterns path incl excl ign = true ->
  is_likely_binary_file path sample = binary_extension path || null_rich sample
  /\ (should_process_file path incl excl ign true (Some sample) v).1
     = negb (binary_extension path || null_rich sample) || any_search incl path.
Proof.
  intros _ Hne Hlen Hpass.
  pose proof (is_likely_binary_file_exact path sample Hlen) as Hbin.
  split; [exact Hbin|].
  rewrite should_process_file_decision, Hpass. unfold rejected_as_binary.
  clear Hlen. destruct sample as [|b bs]; [by destruct Hne|]. simpl.
  rewrite <- Hbin.
  destruct (is_likely_binary_file path (b :: bs)), (any_search incl path);
    reflexivity.
Qed.

(** [img.png] with a two-byte sample and the include pattern [*.png]. *)
Lemma binary_stage_decision_witness :
  is_ascii "img.png" = true
  /\ is_likely_binary_file "img.png" [Byte.x89; Byte.x50]
  = binary_extension "img.png" || null_rich [Byte.x89; Byte.x50]
  /\ (should_process_file "img.png" [glob "*.png"] [] DEFAULT_IGNORE_DIRS true
        (Some [Byte.x89; Byte.x50]) false).1
     = negb (binary_extension "img.png" || null_rich [Byte.x89; Byte.x50])
       || any_search [glob "*.png"] "img.png".
Proof.
  split; [reflexivity|].
  apply binary_stage_decision;
    [reflexivity | done | simpl; lia | vm_compute; reflexivity].
Defined.

(** ** The glob matcher *)

(** The scan for the closing bracket leaves less than it was given. *)
Lemma until_close_shorter (s stuff after : string) :
  Glob.until_close s = Some (stuff, after) ->
  (String.length after < String.length s)%nat.
Proof.
  revert stuff. induction s as [|c s IH]; intros stuff; simpl; [done|].
  destruct (Ascii.eqb c "]").
  - intros [= _ <-]. lia.
  - destruct (Glob.until_close s) as [[stuff' after']|]; [|done].
    intros [= _ <-]. specialize (IH stuff' eq_refl). lia.
Qed.

Lemma scan_after_bang_shorter (s stuff after : string) :
  Glob.scan_after_bang s = Some (stuff, after) ->
  (String.length after < String.length s)%nat.
Proof.
  destruct s as [|c s]; [done|]. unfold Glob.scan_after_bang.
  destruct (Ascii.eqb c "]").
  - destruct (Glob.until_close s) as [[stuff' after']|] eqn:E; [|done].
    intros [= _ <-]. apply until_close_shorter in E. simpl. lia.
  - apply until_close_shorter.
Qed.

Lemma scan_class_shorter (rest stuff after : string) :
  Glob.scan_class rest = Some (stuff, after) ->
  (String.length after < String.length rest)%nat.
Proof.
  destruct rest as [|c s]; [done|]. unfold Glob.scan_class.
  destruct (Ascii.eqb c "!").
  - destruct (Glob.scan_after_bang s) as [[stuff' after']|] eqn:E; [|done].
    intros [= _ <-]. apply scan_after_bang_shorter in E. simpl. lia.
  - apply scan_after_bang_shorter.
Qed.

(** The loop of [translate] never runs out of rounds: any number of rounds
    from the length of the pattern on gives the same result. *)
Lemma translate_loop_enough (n m : nat) (pat : string) :
  (String.length pat <= n)%nat -> (String.length pat <= m)%nat ->
  Glob.translate_loop n pat = Glob.translate_loop m pat.
Proof.
  revert m pat. induction n as [|n IH]; intros m pat Hn Hm.
  - destruct pat; [by destruct m | simpl in Hn; lia].
  - destruct m as [|m]; [destruct pat; [done | simpl in Hm; lia]|].
    destruct pat as [|c rest]; [done|]. simpl in Hn, Hm. simpl.
    assert (Hrest : Glob.translate_loop n rest = Glob.translate_loop m rest)
      by (apply IH; lia).
    destruct (Ascii.eqb c "*"); [by rewrite Hrest|].
    destruct (Ascii.eqb c "?"); [by rewrite Hrest|].
    destruct (Ascii.eqb c "["); [|by rewrite Hrest].
    destruct (Glob.scan_class rest) as [[stuff after]|] eqn:E; [|by rewrite Hrest].
    apply scan_class_shorter in E.
    rewrite (IH m after); [done | lia | lia].
Qed.

(** Matching from index 0 to the end is glob matching of the whole
    string: [Pattern.match] would be anchored at both ends. *)
Lemma match_atoms_spec (r : list Glob.atom) (s : string) :
  Glob.match_atoms r s = true <-> glob_matches r s.
Proof.
  revert s. induction r as [|a r IH]; intros s.
  - simpl. destruct s; split; intros H; try done; [constructor | inversion H].
  - destruct a as [| |c|negated items].
    + simpl. induction s as [|c s IHs].
      * rewrite orb_false_r, IH. split; intros H.
        -- by constructor.
        -- by inversion H.
      * rewrite orb_true_iff, IH, IHs. split.
        -- intros [H|H]; [by apply GM_star_none | by apply GM_star_more].
        -- intros H. inversion H; subst; auto.
    + simpl. destruct s as [|c s].
      * split; [done | intros H; inversion H].
      * rewrite IH. split; intros H; [by constructor | by inversion H].
    + simpl. destruct s as [|a s].
      * split; [done | intros H; inversion H].
      * rewrite andb_true_iff, IH, Ascii.eqb_eq. split.
        -- intros [-> H]. by constructor.
        -- intros H. inversion H; subst. done.
    + simpl. destruct s as [|a s].
      * split; [done | intros H; inversion H].
      * rewrite andb_true_iff, IH. split.
        -- intros [H1 H2]. by constructor.
        -- intros H. inversion H; subst. done.
Qed.

Lemma suffixes_spec (s t : string) :
  In t (Str.suffixes s) <-> exists u, s = u +:+ t.
Proof.
  induction s as [|c s IH].
  - simpl. split.
    + intros [<-|[]]. by exists EmptyString.
    + intros [[|c' u] Hu]; [by left | discriminate Hu].
  - change (Str.suffixes (String c s)) with (String c s :: Str.suffixes s).
    simpl. rewrite IH. split.
    + intros [<-|[u ->]]; [by exists EmptyString | by exists (String c u)].
    + intros [[|c' u] Hu]; [by left|].
      change (String c s = String c' (u +:+ t)) in Hu.
      right. exists u. congruence.
Qed.

(** [Pattern.search] is anchored at the end only: it finds the pattern in
    [s] exactly when some suffix of [s] matches the glob. *)
Lemma search_spec (p : Glob.pattern) (s : string) :
  Glob.search p s = true
  <-> exists u t, s = u +:+ t /\ glob_matches (Glob.prog p) t.
Proof.
  unfold Glob.search. rewrite existsb_exists. split.
  - intros (t & Hin & Hm). apply suffixes_spec in Hin as [u ->].
    exists u, t. by rewrite <- match_atoms_spec.
  - intros (u & t & -> & Hm). exists t. split.
    + apply suffixes_spec. by exists u.
    + by apply match_atoms_spec.
Qed.

(** C1, on the code. The glob [a.py] compiles to a program that the whole
    string [data.py] does not match, yet [search] finds it in [data.py]
    (from index 3), so that excluding [a.py] rejects [data.py]. *)
Theorem search_is_not_anchored :
  let p := Glob.Pattern "a.py" [Glob.ALit "a"; Glob.ALit "."; Glob.ALit "p"; Glob.ALit "y"] in
  Glob.compile "a.py" = Some p
  /\ ~ glob_matches (Glob.prog p) "data.py"
  /\ Glob.re_match p "data.py" = false
  /\ Glob.search p "data.py" = true
  /\ (should_process_file "data.py" [] [p] DEFAULT_IGNORE_DIRS true
        (Some [Byte.x61]) false).1 = false.
Proof.
  repeat split; try (vm_compute; reflexivity).
  intros H. apply match_atoms_spec in H. vm_compute in H. discriminate.
Qed.

(** ** The tree renderer *)

Lemma ltb_le (s1 s2 : string) : String.ltb s1 s2 = true -> String.le s1 s2.
Proof.
  unfold String.ltb, String.le, String.leb.
  destruct (String.compare s1 s2); done.
Qed.

Lemma not_ltb_le (s1 s2 : string) : String.ltb s1 s2 = false -> String.le s2 s1.
Proof.
  unfold String.ltb, String.le, String.leb.
  rewrite (String.compare_antisym s1 s2).
  destruct (String.compare s2 s1); done.
Qed.

Section PySortedFacts.
Context {A : Type} (key : A -> string).

Lemma insert_sorted_Permutation (x : A) (l : list A) :
  insert_sorted key x l ≡ₚ x :: l.
Proof.
  induction l as [|y l IH]; simpl; [done|].
  destruct (String.ltb (key y) (key x)); [|done].
  rewrite IH. apply Permutation_swap.
Qed.

Lemma py_sorted_Permutation (l : list A) : py_sorted key l ≡ₚ l.
Proof.
  induction l as [|x l IH]; simpl; [done|].
  rewrite insert_sorted_Permutation. by rewrite IH.
Qed.

Lemma insert_sorted_HdRel (a x : A) (l : list A) :
  key_le key a x -> HdRel (key_le key) a l -> HdRel (key_le key) a (insert_sorted key x l).
Proof.
  intros Hax Hal. destruct l as [|y l]; simpl; [by constructor|].
  destruct (String.ltb (key y) (key x)); constructor; [by inversion Hal | done].
Qed.

Lemma insert_sorted_Sorted (x : A) (l : list A) :
  Sorted (key_le key) l -> Sorted (key_le key) (insert_sorted key x l).
Proof.
  induction 1 as [|y l Hl IH Hy]; simpl; [by repeat constructor|].
  destruct (String.ltb (key y) (key x)) eqn:Hlt.
  - constructor; [done|]. apply insert_sorted_HdRel; [|done].
    by apply ltb_le.
  - constructor; [by constructor|]. constructor. by apply not_ltb_le.
Qed.

Lemma py_sorted_Sorted (l : list A) : Sorted (key_le key) (py_sorted key l).
Proof.
  induction l as [|x l IH]; simpl; [constructor|].
  by apply insert_sorted_Sorted.
Qed.

End PySortedFacts.

(** Two duplicate-free listings of the same strings sort to the same list:
    the order in which a [set] is listed does not show after [sorted]. *)
Lemma sorted_unique_any_listing (u1 u2 : list string) :
  NoDup u1 -> NoDup u2 -> (forall p, p ∈ u1 <-> p ∈ u2) ->
  py_sorted id u1 = py_sorted id u2.
Proof.
  intros Hn1 Hn2 Hsame.
  apply (Sorted_unique String.le).
  - apply (py_sorted_Sorted id).
  - apply (py_sorted_Sorted id).
  - rewrite !py_sorted_Permutation. by apply NoDup_Permutation.
Qed.

Lemma sorted_unique_same_elements (l1 l2 : list string) :
  (forall p, p ∈ l1 <-> p ∈ l2) -> Tree.sorted_unique l1 = Tree.sorted_unique l2.
Proof.
  intros Hsame. unfold Tree.sorted_unique.
  apply sorted_unique_any_listing; try apply NoDup_remove_dups.
  intros p. by rewrite !elem_of_remove_dups.
Qed.

Lemma build_tree_lines_Dir (items : Tree.dict) (current_prefix : string) :
  Tree.build_tree_lines (Tree.Dir items) current_prefix
  = Tree.emit current_prefix (children_in_order items).
Proof.
  unfold children_in_order. simpl. do 2 f_equal.
  induction items as [|[name child] items IH]; simpl; [done|].
  by rewrite IH.
Qed.

(** C7. The tree is a function of the set of paths: two lists with the
    same elements, in any order and with any repetition, give the same
    text (and the same warnings).  The empty list gives the fixed
    placeholder.  At every level of a structure whose names are ASCII the
    children are printed in the order of their lower-cased names, that
    is, without regard to case.  (The names are ASCII so that [Str.lower]
    is the program's [str.lower].) *)
Theorem tree_display_deterministic (l1 l2 : list string) (repo_name : string) :
  (forall p, p ∈ l1 <-> p ∈ l2) ->
  Tree.generate_tree_display l1 repo_name = Tree.generate_tree_display l2 repo_name
  /\ Tree.generate_tree_display [] repo_name = (no_files_text repo_name, [])
  /\ (forall items current_prefix,
        ascii_names (Tree.Dir items) = true ->
        Tree.build_tree_lines (Tree.Dir items) current_prefix
        = Tree.emit current_prefix (children_in_order items)
        /\ children_in_order items ≡ₚ map entry_of items
        /\ Sorted (key_le (fun e => Str.lower (Tree.e_name e))) (children_in_order items)).
Proof.
  intros Hsame. split; [|split].
  - unfold Tree.generate_tree_display.
    destruct l1 as [|a1 l1], l2 as [|a2 l2]; [done| | |].
    + exfalso. apply (not_elem_of_nil a2), Hsame. by left.
    + exfalso. apply (not_elem_of_nil a1), Hsame. by left.
    + by rewrite (sorted_unique_same_elements _ _ Hsame).
  - reflexivity.
  - intros items current_prefix _. split; [apply build_tree_lines_Dir|]. split.
    + apply py_sorted_Permutation.
    + apply py_sorted_Sorted.
Qed.

(** The same three paths, once with a repetition and in another order;
    and a directory with the ASCII names [b.py], [A.txt] and [src], whose
    entries come out as [A.txt], [b.py], [src]. *)
Lemma tree_display_deterministic_witness :
  Tree.generate_tree_display ["src/b.py"; "a.txt"; "src/b.py"; "Src/c"] "repo"
  = Tree.generate_tree_display ["Src/c"; "src/b.py"; "a.txt"] "repo"
  /\ ascii_names (Tree.Dir [("b.py", Tree.Leaf); ("A.txt", Tree.Leaf);
                            ("src", Tree.Dir [("m.py", Tree.Leaf)])]) = true
  /\ map Tree.e_name
       (children_in_order [("b.py", Tree.Leaf); ("A.txt", Tree.Leaf);
                           ("src", Tree.Dir [("m.py", Tree.Leaf)])])
     = ["A.txt"; "b.py"; "src"]
  /\ Sorted (key_le (fun e => Str.lower (Tree.e_name e)))
       (children_in_order [("b.py", Tree.Leaf); ("A.txt", Tree.Leaf);
                           ("src", Tree.Dir [("m.py", Tree.Leaf)])]).
Proof.
  destruct (tree_display_deterministic
              ["src/b.py"; "a.txt"; "src/b.py"; "Src/c"]
              ["Src/c"; "src/b.py"; "a.txt"] "repo") as (Hsame & _ & Hlevel).
  { intros p. rewrite !elem_of_cons, !elem_of_nil. tauto. }
  split; [exact Hsame|]. split; [reflexivity|]. split; [reflexivity|].
  apply (Hlevel [("b.py", Tree.Leaf); ("A.txt", Tree.Leaf);
                 ("src", Tree.Dir [("m.py", Tree.Leaf)])] EmptyString).
  reflexivity.
Defined.

(** ** The traversal *)

Lemma decision_verbose_irrelevant path incl excl ign ibc sample v :
  (should_process_file path incl excl ign ibc sample v).1
  = (should_process_file path incl excl ign ibc sample false).1.
Proof. by rewrite !should_process_file_decision. Qed.

Section AcceptedFacts.
Variables (incl excl : list Glob.pattern) (ign : gset string) (max_bytes : Q).

Lemma process_file_accepted (v : bool) (st : loop_state) (nf : string * FS.file) :
  let st' := process_file incl excl ign max_bytes v st nf.1 nf.2 in
  all_content_parts st'
  = all_content_parts st
    ++ map record_of (option_list (accepted_file incl excl ign max_bytes nf))
  /\ included_relative_paths st'
     = included_relative_paths st
       ++ map fst (option_list (accepted_file incl excl ign max_bytes nf)).
Proof.
  destruct nf as [rel [[file_size|] [bytes|] [content|]]];
    unfold process_file, accepted_file;
    cbn [fst snd FS.f_size FS.f_bytes FS.f_text];
    try (cbn; rewrite ?app_nil_r; done).
  all: destruct (too_large file_size max_bytes); cbn [negb andb];
    try (cbn; rewrite ?app_nil_r; done).
  all: pose proof (decision_verbose_irrelevant rel incl excl ign true
                     (Some (take 1024 bytes)) v) as Hv;
    destruct (should_process_file rel incl excl ign true (Some (take 1024 bytes)) v)
      as [ok d]; cbn [fst] in Hv; rewrite <- ?Hv;
    destruct ok; cbn; rewrite ?app_nil_r; done.
Qed.

Lemma traverse_accepted (v : bool) (found : list (string * FS.file)) (st : loop_state) :
  let st' := traverse incl excl ign max_bytes v st found in
  all_content_parts st'
  = all_content_parts st
    ++ map record_of (accepted_files incl excl ign max_bytes found)
  /\ included_relative_paths st'
     = included_relative_paths st
       ++ map fst (accepted_files incl excl ign max_bytes found).
Proof.
  revert st. induction found as [|nf found IH]; intros st; cbn zeta; simpl.
  - by rewrite ?app_nil_r.
  - destruct (IH (process_file incl excl ign max_bytes v st nf.1 nf.2)) as [-> ->].
    destruct (process_file_accepted v st nf) as [-> ->].
    unfold accepted_files. simpl.
    destruct (accepted_file incl excl ign max_bytes nf); simpl;
      by rewrite <- !app_assoc.
Qed.

Lemma accepted_files_sublist (found : list (string * FS.file)) :
  map fst (accepted_files incl excl ign max_bytes found) `sublist_of` map fst found.
Proof.
  induction found as [|nf found IH]; simpl; [done|].
  unfold accepted_files in *. simpl. unfold accepted_file at 1.
  destruct (FS.f_size nf.2), (FS.f_bytes nf.2), (FS.f_text nf.2);
    simpl; try (by apply sublist_cons).
  destruct (negb _ && _); simpl; [by apply sublist_skip | by apply sublist_cons].
Qed.

Lemma accepted_file_within_limit (nf : string * FS.file) (pc : string * string) :
  accepted_file incl excl ign max_bytes nf = Some pc ->
  pc.1 = nf.1
  /\ exists file_size, FS.f_size nf.2 = Some file_size
                       /\ too_large file_size max_bytes = false.
Proof.
  unfold accepted_file.
  destruct (FS.f_size nf.2) as [file_size|]; [|done].
  destruct (FS.f_bytes nf.2); [|done]. destruct (FS.f_text nf.2); [|done].
  destruct (too_large file_size max_bytes) eqn:Hlarge; simpl; [done|].
  destruct (should_process_file _ _ _ _ _ _ _).1; [|done].
  intros [= <-]. split; [done|]. by exists file_size.
Qed.

End AcceptedFacts.

Lemma too_large_iff (file_size : Z) (max_bytes : Q) :
  too_large file_size max_bytes = true <-> (max_bytes < inject_Z file_size)%Q.
Proof.
  unfold too_large. rewrite negb_true_iff.
  destruct (Qle_bool (inject_Z file_size) max_bytes) eqn:E.
  - apply Qle_bool_iff in E. split; [done|]. intros H. by apply Qlt_not_le in H.
  - split; [|done]. intros _. apply Qnot_le_lt. intros H.
    apply Qle_bool_iff in H. congruence.
Qed.

(** The compilation loops succeed, with one pattern for each glob. *)
Lemma compile_patterns_ok debug error v (patterns : list string) :
  (compile_patterns debug error v patterns).1 = Some (map glob patterns).
Proof.
  induction patterns as [|p_str rest IH]; simpl; [done|].
  destruct (compile_patterns debug error v rest) as [res d]. simpl in *.
  by rewrite IH.
Qed.

(** The text of a run that reaches the end, in terms of the compiled
    patterns. *)
Lemma ingest_repo_output w a top incl excl d1 d2 :
  w_dir w (repo_path a) = Some top ->
  compile_patterns DebugInclude ErrIncludeGlob (verbose a)
    (default [] (include_patterns a)) = (Some incl, d1) ->
  compile_patterns DebugExclude ErrExcludeGlob (verbose a)
    (default [] (exclude_patterns a)) = (Some excl, d2) ->
  let found := FS.walk DEFAULT_IGNORE_DIRS "" top in
  let accepted := accepted_files incl excl DEFAULT_IGNORE_DIRS (max_bytes_of a) found in
  let final_output :=
    (Tree.generate_tree_display (map fst accepted) (w_basename w (repo_path a))).1
    +:+ Str.join Tree.nl (map record_of accepted) in
  (forall pc, record_of pc
              = "--- " +:+ pc.1 +:+ " ---" +:+ Tree.nl +:+ pc.2 +:+ Tree.nl)
  /\ map fst accepted `sublist_of` map fst found
  /\ match output_target (output_file a) with
     | None =>
         stdout (ingest_repo w a).2 = final_output
         /\ written (ingest_repo w a).2 = None
     | Some out =>
         stdout (ingest_repo w a).2 = ""
         /\ written (ingest_repo w a).2
            = if w_writable w out then Some (out, final_output) else None
     end.
Proof.
  intros Htop Hincl Hexcl found accepted final_output.
  split; [done|]. split; [apply accepted_files_sublist|].
  unfold ingest_repo. rewrite Htop, Hincl, Hexcl.
  destruct (traverse_accepted incl excl DEFAULT_IGNORE_DIRS (max_bytes_of a)
              (verbose a) found
              (LoopState [] []
                 ((if negb (no_git_check a) && negb (has_git_dir top)
                   then [WarnNoGit (w_basename w (repo_path a))] else [])
                  ++ d1 ++ d2))) as [Hparts Hpaths].
  simpl in Hparts, Hpaths. fold found. fold (max_bytes_of a).
  rewrite Hparts, Hpaths. fold accepted.
  destruct (Tree.generate_tree_display (map fst accepted) (w_basename w (repo_path a)))
    as [tree_header warnings] eqn:Htree.
  subst final_output. rewrite ?Htree. simpl.
  destruct (output_target (output_file a)) as [out|]; [|done].
  by destruct (w_writable w out).
Qed.

(** C6, as stated, fails: no blank line follows the last record.  For the
    repository with the one file [a.py] the output ends with the text of
    the file and one newline; as the specification words it, a blank line
    would follow. *)
Lemma last_record_has_no_blank_line :
  let tree_header := (Tree.generate_tree_display ["a.py"] "repo").1 in
  let out := stdout (ingest_repo one_file_world (ex_args "repo" None)).2 in
  out = tree_header +:+ "--- a.py ---" +:+ Tree.nl +:+ "x=1" +:+ Tree.nl
  /\ output_as_specified tree_header [("a.py", "x=1")]
     = out +:+ Tree.nl
  /\ out <> output_as_specified tree_header [("a.py", "x=1")].
Proof. vm_compute. split; [reflexivity|]. split; [reflexivity|]. discriminate. Qed.

(** C6, amended. When the root is a directory, the text of a run is the
    tree of the accepted paths followed by the records of the accepted
    files joined by a newline; a record is the line [--- path ---], the
    text of the file and a newline, so that an empty line separates two
    records and none follows the last one; the accepted files come in the
    order of discovery.  The text goes to the standard output, or to the
    output file when one is given and can be written. *)
Theorem output_is_tree_then_records w a top :
  w_dir w (repo_path a) = Some top ->
  let incl := map glob (default [] (include_patterns a)) in
  let excl := map glob (default [] (exclude_patterns a)) in
  let found := FS.walk DEFAULT_IGNORE_DIRS "" top in
  let accepted := accepted_files incl excl DEFAULT_IGNORE_DIRS (max_bytes_of a) found in
  let final_output :=
    (Tree.generate_tree_display (map fst accepted) (w_basename w (repo_path a))).1
    +:+ Str.join Tree.nl (map record_of accepted) in
  (forall pc, record_of pc
              = "--- " +:+ pc.1 +:+ " ---" +:+ Tree.nl +:+ pc.2 +:+ Tree.nl)
  /\ map fst accepted `sublist_of` map fst found
  /\ match output_target (output_file a) with
     | None =>
         stdout (ingest_repo w a).2 = final_output
         /\ written (ingest_repo w a).2 = None
     | Some out =>
         stdout (ingest_repo w a).2 = ""
         /\ written (ingest_repo w a).2
            = if w_writable w out then Some (out, final_output) else None
     end.
Proof.
  intros Htop.
  pose proof (compile_patterns_ok DebugInclude ErrIncludeGlob (verbose a)
                (default [] (include_patterns a))) as Hi.
  pose proof (compile_patterns_ok DebugExclude ErrExcludeGlob (verbose a)
                (default [] (exclude_patterns a))) as He.
  destruct (compile_patterns DebugInclude _ _ _) as [o1 d1] eqn:E1.
  destruct (compile_patterns DebugExclude _ _ _) as [o2 d2] eqn:E2.
  simpl in Hi, He. subst o1 o2.
  exact (ingest_repo_output w a top _ _ d1 d2 Htop E1 E2).
Qed.

(** The example repository, written to the standard output: [b.py],
    [A.txt] and [src/m.py] in that order in the body. *)
Lemma output_is_tree_then_records_witness :
  stdout (ingest_repo ex_world (ex_args "repo" None)).2
  = (Tree.generate_tree_display ["b.py"; "A.txt"; "src/m.py"] "repo").1
    +:+ Str.join Tree.nl
          [content_part "b.py" "print(1)"; content_part "A.txt" "hello";
           content_part "src/m.py" "m"].
Proof.
  pose proof (output_is_tree_then_records ex_world (ex_args "repo" None) ex_top
                eq_refl) as H.
  cbv zeta in H. destruct H as (_ & _ & H).
  change (output_target (output_file (ex_args "repo" None))) with (@None string) in H.
  destruct H as [H _]. rewrite H. vm_compute. reflexivity.
Defined.

(** C8. A path whose files all have a size above the limit is never among
    the included paths; each such file leaves the loop state as it was,
    the only line printed being the one for the size. *)
Theorem oversized_files_are_skipped incl excl ign (mb : Q) v found rel :
  (forall f, (rel, f) ∈ found ->
             exists file_size, FS.f_size f = Some file_size
                               /\ (mb * inject_Z BYTES_IN_MB < inject_Z file_size)%Q) ->
  (rel ∉ included_relative_paths
           (traverse incl excl ign (mb * inject_Z BYTES_IN_MB)%Q v (LoopState [] [] []) found))
  /\ (forall st f, (rel, f) ∈ found ->
        process_file incl excl ign (mb * inject_Z BYTES_IN_MB)%Q v st rel f
        = print_all st (say v (SkipTooLarge rel))).
Proof.
  intros Hbig. split.
  - destruct (traverse_accepted incl excl ign (mb * inject_Z BYTES_IN_MB)%Q v found
                (LoopState [] [] [])) as [_ ->].
    simpl. intros Hin. apply list_elem_of_In, in_map_iff in Hin as (pc & <- & Hin).
    unfold accepted_files in Hin.
    apply list_elem_of_In, list_elem_of_omap in Hin as ([p f] & Hf & Hacc).
    apply accepted_file_within_limit in Hacc as (Hp & file_size & Hsize & Hlimit).
    simpl in Hp, Hsize. rewrite <- Hp in Hf.
    destruct (Hbig f Hf) as (file_size' & Hsize' & Hlt).
    assert (file_size' = file_size) as -> by congruence.
    apply too_large_iff in Hlt. congruence.
  - intros st f Hf. destruct (Hbig f Hf) as (file_size & Hsize & Hlt).
    apply too_large_iff in Hlt. unfold process_file. by rewrite Hsize, Hlt.
Qed.

(** With the default limit of 5 MB a file of [5 * 2^20 + 1] bytes is not
    included. *)
Lemma oversized_files_are_skipped_witness :
  "big.log" ∉ included_relative_paths
      (traverse [] [] DEFAULT_IGNORE_DIRS (5 * inject_Z BYTES_IN_MB)%Q false
         (LoopState [] [] [])
         [("big.log", FS.File (Some 5242881) (Some [Byte.x61]) (Some "a"));
          ("ok.log", FS.File (Some 5242880) (Some [Byte.x61]) (Some "a"))]).
Proof.
  apply (oversized_files_are_skipped [] [] DEFAULT_IGNORE_DIRS 5 false).
  intros f Hf. exists 5242881.
  rewrite elem_of_cons, list_elem_of_singleton in Hf.
  destruct Hf as [[= ->]|Hf]; [|discriminate Hf]. split; reflexivity.
Defined.

(** *** Exit statuses *)

Lemma main_missing_root (w : world) (a : args) :
  w_dir w (repo_path a) = None ->
  main w a = (0, Effects [ErrRoot (repo_path a)] "" None).
Proof. intros H. unfold main, ingest_repo. by rewrite H. Qed.

Lemma main_write_failure w a top incl excl d1 d2 out :
  w_dir w (repo_path a) = Some top ->
  compile_patterns DebugInclude ErrIncludeGlob (verbose a)
    (default [] (include_patterns a)) = (Some incl, d1) ->
  compile_patterns DebugExclude ErrExcludeGlob (verbose a)
    (default [] (exclude_patterns a)) = (Some excl, d2) ->
  output_target (output_file a) = Some out ->
  w_writable w out = false ->
  (main w a).1 = 0
  /\ last (stderr (main w a).2) = Some (ErrWriting out)
  /\ stdout (main w a).2 = ""
  /\ written (main w a).2 = None.
Proof.
  intros Htop Hincl Hexcl Hout Hw. unfold main, ingest_repo.
  rewrite Htop, Hincl, Hexcl.
  destruct (Tree.generate_tree_display _ _) as [tree_header warnings].
  rewrite Hout, Hw. simpl. by rewrite last_snoc.
Qed.

(** Every run of the model ends with status 0: the only calls of
    [sys.exit] are in the [except re.error] branches, and the translation
    of a glob always compiles. *)
Lemma main_exit_status (w : world) (a : args) : (main w a).1 = 0.
Proof.
  unfold main, ingest_repo.
  destruct (w_dir w (repo_path a)) as [top|]; [|done].
  pose proof (compile_patterns_ok DebugInclude ErrIncludeGlob (verbose a)
                (default [] (include_patterns a))) as Hi.
  destruct (compile_patterns DebugInclude _ _ _) as [[incl|] d1]; [|done].
  pose proof (compile_patterns_ok DebugExclude ErrExcludeGlob (verbose a)
                (default [] (exclude_patterns a))) as He.
  destruct (compile_patterns DebugExclude _ _ _) as [[excl|] d2]; [|done].
  destruct (Tree.generate_tree_display _ _) as [tree_header warnings].
  destruct (output_target (output_file a)) as [out|]; [|done].
  by destruct (w_writable w out).
Qed.

(** C4, on the code. For a root that is no directory the program prints
    the error and nothing else, and [ingest_repo] returns: the exit status
    is 0, not the status 1 of the [sys.exit(1)] that follows the error
    message of a pattern. *)
Theorem missing_root_exit_status :
  main ex_world (ex_args "nowhere" None)
  = (0, Effects [ErrRoot "nowhere"] "" None).
Proof. apply main_missing_root. reflexivity. Qed.

(** C5, on the code. When the output file cannot be written the program
    prints the error after the traversal, delivers nothing, and returns:
    the exit status is 0. *)
Theorem write_failure_exit_status :
  main ex_world (Args "repo" None None (Some "out.txt") 5 true true)
  = (0, Effects [Including "b.py"; SkipBinary "img.png"; Including "A.txt";
                 Including "src/m.py"; ErrWriting "out.txt"] "" None).
Proof. vm_compute. reflexivity. Qed.

(** * Further properties *)

(** ** The file filter, stage by stage *)

Lemma has_ignored_part_spec (path : string) (ign : gset string) :
  has_ignored_part path ign = true
  <-> exists part, part ∈ Str.split Str.os_sep path /\ part ∈ ign.
Proof.
  unfold has_ignored_part. rewrite existsb_exists. split.
  - intros (part & Hin & Hign). exists part.
    apply list_elem_of_In, elem_of_elements, elem_of_list_to_set in Hin.
    split; [done|]. by apply bool_decide_eq_true_1 in Hign.
  - intros (part & Hin & Hign). exists part. split.
    + by apply list_elem_of_In, elem_of_elements, elem_of_list_to_set.
    + by apply bool_decide_eq_true_2.
Qed.

Lemma any_search_spec (regexes : list Glob.pattern) (path : string) :
  any_search regexes path = true
  <-> exists pattern, pattern ∈ regexes /\ Glob.search pattern path = true.
Proof.
  unfold any_search. rewrite existsb_exists.
  split; intros (p & Hin & Hs); exists p; split; try done;
    by apply list_elem_of_In.
Qed.

Lemma any_search_same_elements (l1 l2 : list Glob.pattern) (path : string) :
  (forall p, p ∈ l1 <-> p ∈ l2) -> any_search l1 path = any_search l2 path.
Proof.
  intros Hsame. apply Bool.eq_iff_eq_true. rewrite !any_search_spec.
  split; intros (p & Hin & Hs); exists p; split; try done; by apply Hsame.
Qed.

(** X1. A path one of whose components is an ignored name is rejected,
    whatever the patterns, the sample and the flags are; the last
    component, the name of the file itself, counts as well. *)
Theorem ignored_component_rejects path incl excl ign ibc sample v part :
  part ∈ Str.split Str.os_sep path -> part ∈ ign ->
  (should_process_file path incl excl ign ibc sample v).1 = false.
Proof.
  intros Hin Hign. rewrite should_process_file_decision. unfold passes_patterns.
  assert (has_ignored_part path ign = true) as ->; [|done].
  apply has_ignored_part_spec. by exists part.
Qed.

(** The file [config/.env]: its own name is in the default set. *)
Lemma ignored_component_rejects_witness :
  (should_process_file "config/.env" [glob "*"] [] DEFAULT_IGNORE_DIRS true
     (Some [Byte.x61]) false).1 = false.
Proof.
  apply (ignored_component_rejects _ _ _ _ _ _ _ ".env").
  - vm_compute. apply list_elem_of_In. right. left. reflexivity.
  - assert (bool_decide (".env" ∈ DEFAULT_IGNORE_DIRS) = true) as H
      by (vm_compute; reflexivity).
    by apply bool_decide_eq_true_1 in H.
Defined.

(** X2. The decision depends on the include and on the exclude patterns as
    sets: their order and their repetitions do not matter. *)
Theorem pattern_order_is_irrelevant path incl1 incl2 excl1 excl2 ign ibc sample v :
  (forall p, p ∈ incl1 <-> p ∈ incl2) ->
  (forall p, p ∈ excl1 <-> p ∈ excl2) ->
  (should_process_file path incl1 excl1 ign ibc sample v).1
  = (should_process_file path incl2 excl2 ign ibc sample v).1.
Proof.
  intros Hincl Hexcl. rewrite !should_process_file_decision.
  unfold passes_patterns, rejected_as_binary.
  rewrite (any_search_same_elements incl1 incl2 path Hincl).
  rewrite (any_search_same_elements excl1 excl2 path Hexcl).
  assert (bool_decide (incl1 = []) = bool_decide (incl2 = [])) as ->; [|done].
  destruct incl1 as [|a l1], incl2 as [|b l2]; try done.
  - exfalso. apply (not_elem_of_nil b), Hincl. by left.
  - exfalso. apply (not_elem_of_nil a), Hincl. by left.
Qed.

Lemma pattern_order_is_irrelevant_witness :
  (should_process_file "src/a.py" [glob "*.py"; glob "*.md"] [glob "doc/*"]
     DEFAULT_IGNORE_DIRS true (Some [Byte.x61]) false).1
  = (should_process_file "src/a.py" [glob "*.md"; glob "*.py"; glob "*.md"]
       [glob "doc/*"; glob "doc/*"] DEFAULT_IGNORE_DIRS true (Some [Byte.x61]) false).1.
Proof.
  apply pattern_order_is_irrelevant; intros p;
    rewrite !elem_of_cons, !elem_of_nil; tauto.
Defined.

(** X3. A file that an include pattern names is never rejected as binary:
    past the ignored names and the exclude patterns it is accepted,
    whatever its extension and its sample are. *)
Theorem explicit_include_overrides_binary path incl excl ign ibc sample v :
  has_ignored_part path ign = false ->
  any_search excl path = false ->
  any_search incl path = true ->
  (should_process_file path incl excl ign ibc sample v).1 = true.
Proof.
  intros H1 H2 H3. rewrite should_process_file_decision.
  unfold passes_patterns, rejected_as_binary. rewrite H1, H2, H3. simpl.
  by rewrite orb_true_r, andb_false_r.
Qed.

Lemma explicit_include_overrides_binary_witness :
  (should_process_file "img.png" [glob "*.png"] [] DEFAULT_IGNORE_DIRS true
     (Some [Byte.x00; Byte.x00]) false).1 = true.
Proof.
  apply explicit_include_overrides_binary; vm_compute; reflexivity.
Defined.

(** X4. With [verbose] on, a rejection prints exactly one line, which
    reports a rejection; an acceptance prints at most the warning for a
    binary file that was included, and never a line of rejection. *)
Theorem verbose_reports_each_rejection path incl excl ign ibc sample :
  let r := should_process_file path incl excl ign ibc sample true in
  if r.1
  then r.2 = [] \/ r.2 = [WarnBinaryIncluded path]
  else exists d, r.2 = [d] /\ diag_is_skip d = true.
Proof.
  unfold should_process_file. cbn zeta.
  destruct (has_ignored_part path ign); simpl; [by eexists|].
  destruct (List.find _ excl); simpl; [by eexists|].
  destruct (bool_decide (incl ≠ []) && negb (any_search incl path)); simpl;
    [by eexists|].
  destruct (ibc && sample_truthy sample && _); simpl; [|by left].
  destruct (any_search incl path); simpl; [by right | by eexists].
Qed.

(** X5. The line printed for an excluded path names the first exclude
    pattern, in the order given, that is found in the path. *)
Theorem exclusion_names_first_match path incl before pattern after ign ibc sample :
  has_ignored_part path ign = false ->
  any_search before path = false ->
  Glob.search pattern path = true ->
  should_process_file path incl (before ++ pattern :: after) ign ibc sample true
  = (false, [SkipExcluded (Glob.source pattern) path]).
Proof.
  intros Hign Hbefore Hp. unfold should_process_file. rewrite Hign.
  assert (List.find (fun pattern => Glob.search pattern path)
            (before ++ pattern :: after) = Some pattern) as ->; [|done].
  induction before as [|b before IH]; simpl.
  - by rewrite Hp.
  - unfold any_search in Hbefore. simpl in Hbefore.
    apply orb_false_iff in Hbefore as [-> Hrest]. by apply IH.
Qed.

Lemma exclusion_names_first_match_witness :
  should_process_file "doc/a.log" [] ([glob "*.tmp"] ++ glob "*.log" :: [glob "doc/*"])
    DEFAULT_IGNORE_DIRS true (Some [Byte.x61]) true
  = (false, [SkipExcluded "*.log" "doc/a.log"]).
Proof.
  apply exclusion_names_first_match; vm_compute; reflexivity.
Defined.

(** X6. Without a sample ([None]), or with the binary check switched off,
    the decision is that of the patterns alone. *)
Theorem no_sample_no_binary_stage path incl excl ign ibc sample v :
  (should_process_file path incl excl ign ibc None v).1
  = passes_patterns path incl excl ign
  /\ (should_process_file path incl excl ign false sample v).1
     = passes_patterns path incl excl ign.
Proof.
  rewrite !should_process_file_decision. unfold rejected_as_binary. simpl.
  rewrite andb_false_r. simpl. by rewrite andb_true_r.
Qed.

(** X19. When include patterns are given and none of them is found in the
    path, the path is rejected, whatever the sample is. *)
Theorem unmatched_include_rejects path incl excl ign ibc sample v :
  incl <> [] -> any_search incl path = false ->
  (should_process_file path incl excl ign ibc sample v).1 = false.
Proof.
  intros Hne Hnone. rewrite should_process_file_decision.
  unfold passes_patterns. rewrite Hnone, bool_decide_eq_false_2 by done.
  by rewrite !andb_false_r.
Qed.

Lemma unmatched_include_rejects_witness :
  (should_process_file "a.py" [glob "*.png"] [] DEFAULT_IGNORE_DIRS true
     (Some [Byte.x61]) false).1 = false.
Proof. apply unmatched_include_rejects; [done | vm_compute; reflexivity]. Defined.

(** ** What a pattern matches *)

Lemma glob_matches_star_prefix (r : list Glob.atom) (u t : string) :
  glob_matches (Glob.AStar :: r) t -> glob_matches (Glob.AStar :: r) (u +:+ t).
Proof.
  intros H. induction u as [|c u IH]; [exact H|].
  change (String c u +:+ t) with (String c (u +:+ t)). by apply GM_star_more.
Qed.

Lemma translate_loop_plain (n : nat) (g : string) :
  plain_glob g = true -> (String.length g <= n)%nat ->
  Glob.translate_loop n g = map Glob.ALit (String.list_ascii_of_string g).
Proof.
  revert n. induction g as [|c g IH]; intros n Hplain Hlen.
  - by destruct n.
  - destruct n as [|n]; [simpl in Hlen; lia|].
    unfold plain_glob in Hplain. simpl in Hplain, Hlen.
    apply andb_true_iff in Hplain as [Hc Hg].
    apply andb_true_iff in Hc as [Hc H3]. apply andb_true_iff in Hc as [H1 H2].
    apply negb_true_iff in H1, H2, H3. simpl. rewrite H1, H2, H3.
    f_equal. apply IH; [exact Hg | lia].
Qed.

Lemma glob_matches_literals (cs : list ascii) (t : string) :
  glob_matches (map Glob.ALit cs) t <-> t = String.string_of_list_ascii cs.
Proof.
  revert t. induction cs as [|c cs IH]; intros t; simpl.
  - split; [by inversion 1 | intros ->; constructor].
  - split.
    + inversion 1; subst. f_equal. by apply IH.
    + intros ->. constructor. by apply IH.
Qed.

(** X8. For a glob that begins with [*] the unanchored search makes no
    difference: it is found in a path exactly when the whole path matches. *)
Theorem leading_star_is_whole_path (rest path : string) :
  Glob.search (glob (String "*" rest)) path
  = Glob.re_match (glob (String "*" rest)) path.
Proof.
  apply Bool.eq_iff_eq_true. rewrite search_spec. unfold Glob.re_match.
  rewrite match_atoms_spec.
  change (Glob.prog (glob (String "*" rest)))
    with (Glob.AStar :: Glob.translate_loop (String.length rest) rest).
  split.
  - intros (u & t & -> & H). by apply glob_matches_star_prefix.
  - intros H. by exists EmptyString, path.
Qed.

(** X9. A glob without [*], [?] and [[] is found in exactly the paths
    that end with it: as an exclude pattern [a.py] also drops [data.py]
    and [src/a.py]. *)
Theorem plain_glob_matches_endings (g path : string) :
  plain_glob g = true ->
  (Glob.search (glob g) path = true <-> exists u, path = u +:+ g).
Proof.
  intros Hplain. rewrite search_spec.
  change (Glob.prog (glob g)) with (Glob.translate_loop (String.length g) g).
  rewrite (translate_loop_plain _ g Hplain (le_n _)).
  split.
  - intros (u & t & -> & H). apply glob_matches_literals in H.
    rewrite String.string_of_list_ascii_of_string in H. subst t. by exists u.
  - intros (u & ->). exists u, g. split; [done|].
    apply glob_matches_literals. by rewrite String.string_of_list_ascii_of_string.
Qed.

Lemma plain_glob_matches_endings_witness :
  Glob.search (glob "a.py") "src/data.py" = true
  <-> exists u, "src/data.py" = u +:+ "a.py".
Proof. apply plain_glob_matches_endings. reflexivity. Defined.

(** ** The structure that the tree renderer builds *)

Lemma dict_get_set_eq (d : Tree.dict) (k : string) (v : Tree.node) :
  Tree.dict_get (Tree.dict_set d k v) k = Some v.
Proof.
  induction d as [|[k' v'] d IH]; simpl.
  - by rewrite String.eqb_refl.
  - destruct (String.eqb k' k) eqn:E; simpl; rewrite E; [done | exact IH].
Qed.

Lemma dict_get_set_ne (d : Tree.dict) (k k' : string) (v : Tree.node) :
  k <> k' -> Tree.dict_get (Tree.dict_set d k v) k' = Tree.dict_get d k'.
Proof.
  intros Hne. induction d as [|[k0 v0] d IH]; simpl.
  - destruct (String.eqb_spec k k'); [done | reflexivity].
  - destruct (String.eqb_spec k0 k) as [->|Hk0]; simpl.
    + destruct (String.eqb_spec k k'); [done | reflexivity].
    + destruct (String.eqb_spec k0 k'); [done | exact IH].
Qed.

Lemma dict_set_same (d : Tree.dict) (k : string) (v : Tree.node) :
  Tree.dict_get d k = Some v -> Tree.dict_set d k v = d.
Proof.
  induction d as [|[k' v'] d IH]; simpl; [done|].
  destruct (String.eqb k' k); [by intros [= ->] | intros H; by rewrite IH].
Qed.

Lemma insert_parts_fresh_no_warning (parts : list string) :
  (Tree.insert_parts parts []).2 = [].
Proof.
  induction parts as [|part rest IH]; [done|].
  destruct rest as [|r rest']; [done|].
  change (Tree.insert_parts (part :: r :: rest') [])
    with (let '(sub, w) := Tree.insert_parts (r :: rest') [] in
          (Tree.dict_set [] part (Tree.Dir sub), w)).
  by destruct (Tree.insert_parts (r :: rest') []).
Qed.

(** X11. A path that runs through a name already stored as a file leaves
    the structure as it is: the file stays a file, what lies below it is
    not stored, and one warning names the component. *)
Theorem conflicting_path_is_dropped (pre rest : list string) (c : string)
    (d : Tree.dict) :
  lookup_path pre d = Some Tree.Leaf -> last pre = Some c -> rest <> [] ->
  Tree.insert_parts (pre ++ rest) d = (d, [WarnPathConflict c]).
Proof.
  revert d. induction pre as [|p pre IH]; intros d Hleaf Hlast Hrest; [done|].
  destruct pre as [|p' pre'].
  - simpl in Hleaf, Hlast. injection Hlast as ->.
    destruct (Tree.dict_get d c) as [nd|] eqn:Hget; [|done].
    injection Hleaf as ->. destruct rest as [|r rest']; [done|].
    change (Tree.insert_parts ([c] ++ r :: rest') d)
      with (match Tree.dict_get d c with
            | None =>
                let '(sub, w) := Tree.insert_parts (r :: rest') [] in
                (Tree.dict_set d c (Tree.Dir sub), w)
            | Some (Tree.Dir sub) =>
                let '(sub', w) := Tree.insert_parts (r :: rest') sub in
                (Tree.dict_set d c (Tree.Dir sub'), w)
            | Some Tree.Leaf =>
                let '(_, w) := Tree.insert_parts (r :: rest') [] in
                (d, WarnPathConflict c :: w)
            end).
    rewrite Hget.
    pose proof (insert_parts_fresh_no_warning (r :: rest')) as Hw.
    destruct (Tree.insert_parts (r :: rest') []) as [sub w]. simpl in Hw.
    by subst w.
  - change (lookup_path (p :: p' :: pre') d)
      with (match Tree.dict_get d p with
            | None => None
            | Some (Tree.Dir sub) => lookup_path (p' :: pre') sub
            | Some Tree.Leaf => None
            end) in Hleaf.
    destruct (Tree.dict_get d p) as [[|sub]|] eqn:Hget; try done.
    change ((p :: p' :: pre') ++ rest) with (p :: (p' :: pre') ++ rest).
    change (Tree.insert_parts (p :: (p' :: pre') ++ rest) d)
      with (match Tree.dict_get d p with
            | None =>
                let '(sub, w) := Tree.insert_parts ((p' :: pre') ++ rest) [] in
                (Tree.dict_set d p (Tree.Dir sub), w)
            | Some (Tree.Dir sub) =>
                let '(sub', w) := Tree.insert_parts ((p' :: pre') ++ rest) sub in
                (Tree.dict_set d p (Tree.Dir sub'), w)
            | Some Tree.Leaf =>
                let '(_, w) := Tree.insert_parts ((p' :: pre') ++ rest) [] in
                (d, WarnPathConflict p :: w)
            end).
    rewrite Hget, (IH sub Hleaf Hlast Hrest).
    by rewrite (dict_set_same d p (Tree.Dir sub) Hget).
Qed.

Lemma conflicting_path_is_dropped_witness :
  Tree.insert_parts (["docs"; "a"] ++ ["b"; "c.txt"])
    [("docs", Tree.Dir [("a", Tree.Leaf)])]
  = ([("docs", Tree.Dir [("a", Tree.Leaf)])], [WarnPathConflict "a"]).
Proof. by apply conflicting_path_is_dropped. Defined.

Lemma insert_parts_cons2 (part r : string) (rest : list string) (d : Tree.dict) :
  Tree.insert_parts (part :: r :: rest) d
  = match Tree.dict_get d part with
    | None =>
        let '(sub, w) := Tree.insert_parts (r :: rest) [] in
        (Tree.dict_set d part (Tree.Dir sub), w)
    | Some (Tree.Dir sub) =>
        let '(sub', w) := Tree.insert_parts (r :: rest) sub in
        (Tree.dict_set d part (Tree.Dir sub'), w)
    | Some Tree.Leaf =>
        let '(_, w) := Tree.insert_parts (r :: rest) [] in
        (d, WarnPathConflict part :: w)
    end.
Proof. reflexivity. Qed.

Lemma lookup_path_cons2 (part r : string) (rest : list string) (d : Tree.dict) :
  lookup_path (part :: r :: rest) d
  = match Tree.dict_get d part with
    | Some (Tree.Dir sub) => lookup_path (r :: rest) sub
    | _ => None
    end.
Proof. simpl. by destruct (Tree.dict_get d part) as [[|sub]|]. Qed.

Lemma lookup_path_empty_dict (parts : list string) : lookup_path parts [] = None.
Proof. by destruct parts. Qed.

Lemma lookup_path_same_head (part : string) (rest : list string) (d1 d2 : Tree.dict) :
  Tree.dict_get d1 part = Tree.dict_get d2 part ->
  lookup_path (part :: rest) d1 = lookup_path (part :: rest) d2.
Proof. intros H. simpl. by rewrite H. Qed.

(** The files of the structure after one insertion without conflict. *)
Lemma insert_parts_leaves (q : list string) (d : Tree.dict) :
  q <> [] -> no_conflict q d ->
  (Tree.insert_parts q d).2 = []
  /\ forall r, lookup_path r (Tree.insert_parts q d).1 = Some Tree.Leaf
               <-> (r = q \/ (lookup_path r d = Some Tree.Leaf /\ ~ q `prefix_of` r)).
Proof.
  revert d. induction q as [|p q IH]; intros d Hne Hnc; [done|].
  assert (Hother : forall r1 rs (d' : Tree.dict),
            r1 <> p -> Tree.dict_get d' r1 = Tree.dict_get d r1 ->
            lookup_path (r1 :: rs) d' = Some Tree.Leaf
            <-> (r1 :: rs = p :: q
                 \/ (lookup_path (r1 :: rs) d = Some Tree.Leaf
                     /\ ~ (p :: q) `prefix_of` (r1 :: rs)))).
  { intros r1 rs d' Hr Hget. rewrite (lookup_path_same_head r1 rs d' d Hget).
    split; [|intros [[= ? ?]|[? _]]; done].
    intros Hl. right. split; [done|]. by intros ?%prefix_cons_inv_1. }
  destruct q as [|p' q'].
  - split; [done|]. intros [|r1 rs]; simpl fst.
    { simpl. split; [done | intros [|[? _]]; done]. }
    destruct (decide (r1 = p)) as [->|Hr].
    + simpl. rewrite dict_get_set_eq. destruct rs as [|r2 rs].
      * split; [by left | done].
      * split; [done|]. intros [[= ]|[_ Hnp]]. destruct Hnp.
        apply prefix_cons, prefix_nil.
    + apply Hother; [done|]. by apply dict_get_set_ne.
  - rewrite insert_parts_cons2.
    destruct (Tree.dict_get d p) as [[|sub]|] eqn:Hget.
    + destruct (Hnc [p] (p' :: q')); [done | done |]. simpl. by rewrite Hget.
    + assert (Hnc' : no_conflict (p' :: q') sub).
      { intros pre rest Heq Hrest Hl. destruct pre as [|p0 pre]; [done|].
        apply (Hnc (p :: p0 :: pre) rest); [by rewrite Heq | done |].
        by rewrite lookup_path_cons2, Hget. }
      destruct (IH sub) as [Hw Hl]; [done | done |].
      destruct (Tree.insert_parts (p' :: q') sub) as [sub' w]. simpl in Hw, Hl.
      subst w. split; [done|]. intros [|r1 rs]; simpl fst.
      { simpl. split; [done | intros [|[? _]]; done]. }
      destruct (decide (r1 = p)) as [->|Hr];
        [|apply Hother; [done | by apply dict_get_set_ne]].
      destruct rs as [|r2 rs].
      * simpl. rewrite dict_get_set_eq, Hget.
        split; [done | intros [|[? _]]; done].
      * rewrite !lookup_path_cons2, dict_get_set_eq, Hget, Hl. split.
        -- intros [->|[? Hnp]]; [by left|]. right. split; [done|].
           by intros ?%prefix_cons_inv_2.
        -- intros [[= -> ->]|[? Hnp]]; [by left|]. right. split; [done|].
           intros ?. apply Hnp. by apply prefix_cons.
    + destruct (IH []) as [Hw Hl]; [done | |].
      { intros pre rest _ _. by rewrite lookup_path_empty_dict. }
      destruct (Tree.insert_parts (p' :: q') []) as [sub' w]. simpl in Hw, Hl.
      subst w. split; [done|]. intros [|r1 rs]; simpl fst.
      { simpl. split; [done | intros [|[? _]]; done]. }
      destruct (decide (r1 = p)) as [->|Hr];
        [|apply Hother; [done | by apply dict_get_set_ne]].
      destruct rs as [|r2 rs].
      * simpl. rewrite dict_get_set_eq, Hget.
        split; [done | intros [|[? _]]; done].
      * rewrite !lookup_path_cons2, dict_get_set_eq, Hget, Hl.
        rewrite lookup_path_empty_dict. split.
        -- intros [->|[? _]]; [by left | done].
        -- intros [[= -> ->]|[? _]]; [by left | done].
Qed.

Lemma split_nonempty (sep : ascii) (s : string) : Str.split sep s <> [].
Proof.
  induction s as [|c s IH]; simpl; [done|].
  destruct (Ascii.eqb c sep); [done|]. by destruct (Str.split sep s).
Qed.

Lemma build_structure_leaves (paths : list string) :
  forall (d : Tree.dict) (S : list (list string)),
    (forall r, lookup_path r d = Some Tree.Leaf <-> r ∈ S) ->
    prefix_free (S ++ map (Str.split Str.os_sep) paths) ->
    (Tree.build_structure paths d).2 = []
    /\ forall r, lookup_path r (Tree.build_structure paths d).1 = Some Tree.Leaf
                 <-> r ∈ S ++ map (Str.split Str.os_sep) paths.
Proof.
  induction paths as [|path paths IH]; intros d S Hinv Hfree.
  - simpl. split; [done|]. intros r. by rewrite app_nil_r.
  - simpl. set (q := Str.split Str.os_sep path) in *.
    assert (Hq : q ∈ S ++ q :: map (Str.split Str.os_sep) paths).
    { apply elem_of_app. right. by left. }
    assert (Hnc : no_conflict q d).
    { intros pre rest Heq Hrest Hl. apply Hinv in Hl.
      assert (pre = q) as ->.
      { apply Hfree; [apply elem_of_app; by left | done | by exists rest]. }
      apply Hrest. apply (app_inv_head q). by rewrite app_nil_r. }
    destruct (insert_parts_leaves q d (split_nonempty _ _) Hnc) as [Hw1 Hl1].
    destruct (Tree.insert_parts q d) as [d1 w1]. simpl in Hw1, Hl1. subst w1.
    destruct (IH d1 (S ++ [q])) as [Hw2 Hl2].
    { intros r. rewrite Hl1, elem_of_app, list_elem_of_singleton, Hinv. split.
      - intros [->|[? _]]; [by right | by left].
      - intros [Hr | ->]; [|by left].
        destruct (decide (q `prefix_of` r)) as [Hp|Hp]; [|by right].
        left. symmetry. apply Hfree; [done | apply elem_of_app; by left | done]. }
    { by rewrite <- app_assoc. }
    destruct (Tree.build_structure paths d1) as [d2 w2]. simpl in Hw2, Hl2.
    subst w2. split; [done|]. intros r. by rewrite Hl2, <- app_assoc.
Qed.

Lemma sorted_unique_elements (filepaths : list string) (p : string) :
  p ∈ Tree.sorted_unique filepaths <-> p ∈ filepaths.
Proof.
  unfold Tree.sorted_unique. by rewrite py_sorted_Permutation, elem_of_remove_dups.
Qed.

(** X12. When no path of the list continues another one (a file is not
    also a directory, as on a real file system), the renderer prints no
    conflict warning, and the structure it builds has a file at exactly
    the component lists of the paths. *)
Theorem prefix_free_paths_become_leaves (filepaths : list string) (repo_name : string) :
  prefix_free (map (Str.split Str.os_sep) filepaths) ->
  (Tree.generate_tree_display filepaths repo_name).2 = []
  /\ forall parts,
       lookup_path parts (Tree.build_structure (Tree.sorted_unique filepaths) []).1
       = Some Tree.Leaf
       <-> parts ∈ map (Str.split Str.os_sep) filepaths.
Proof.
  intros Hfree.
  assert (Hsame : forall parts,
            parts ∈ map (Str.split Str.os_sep) (Tree.sorted_unique filepaths)
            <-> parts ∈ map (Str.split Str.os_sep) filepaths).
  { intros parts. rewrite !list_elem_of_In, !in_map_iff.
    split; intros (p & <- & Hp); exists p; split; try done;
      apply list_elem_of_In; apply list_elem_of_In in Hp;
      by apply sorted_unique_elements. }
  destruct (build_structure_leaves (Tree.sorted_unique filepaths) [] []) as [Hw Hl].
  { intros r. rewrite lookup_path_empty_dict. split; [done | by intros ?%elem_of_nil]. }
  { simpl. intros a b Ha Hb. apply Hfree; by apply Hsame. }
  split.
  - unfold Tree.generate_tree_display. destruct filepaths as [|f fs]; [done|].
    destruct (Tree.build_structure _ _) as [root_structure warnings].
    exact Hw.
  - intros parts. rewrite Hl. simpl. apply Hsame.
Qed.

Lemma prefix_free_paths_become_leaves_witness :
  (Tree.generate_tree_display ["src/a.py"; "README.md"; "src/lib/b.py"] "repo").2 = [].
Proof.
  apply (prefix_free_paths_become_leaves ["src/a.py"; "README.md"; "src/lib/b.py"]).
  assert (map (Str.split Str.os_sep) ["src/a.py"; "README.md"; "src/lib/b.py"]
          = [["src"; "a.py"]; ["README.md"]; ["src"; "lib"; "b.py"]]) as ->
    by (vm_compute; reflexivity).
  intros a b Ha Hb [k Hk].
  rewrite !elem_of_cons, elem_of_nil in Ha, Hb.
  destruct Ha as [->|[->|[->|[]]]], Hb as [->|[->|[->|[]]]];
    try done; by simplify_eq.
Defined.

Lemma node_size_child (items : Tree.dict) (name : string) (child : Tree.node) :
  (name, child) ∈ items -> (node_size child < node_size (Tree.Dir items))%nat.
Proof.
  simpl. induction items as [|[n c] items IH]; [by intros ?%elem_of_nil|].
  intros [[= -> ->]|Hin]%elem_of_cons; [lia|]. specialize (IH Hin). lia.
Qed.

(** Induction on nodes: a directory has the property when its children
    have it. *)
Lemma node_induction (P : Tree.node -> Prop) :
  P Tree.Leaf ->
  (forall items, (forall name child, (name, child) ∈ items -> P child) ->
                 P (Tree.Dir items)) ->
  forall nd, P nd.
Proof.
  intros Hleaf Hdir nd.
  assert (H : forall n nd, (node_size nd <= n)%nat -> P nd); [|by apply (H (node_size nd))].
  clear nd. induction n as [|n IH]; intros [|items] Hn; try done.
  - simpl in Hn. lia.
  - apply Hdir. intros name child Hin. apply IH.
    apply node_size_child in Hin. lia.
Qed.

Lemma emit_length (current_prefix : string) (entries : list Tree.entry) :
  (forall e, e ∈ entries ->
             forall pfx, length (lines_below e pfx) = length (lines_below e "")) ->
  length (Tree.emit current_prefix entries)
  = sum_list_with (fun e => S (length (lines_below e ""))) entries.
Proof.
  induction entries as [|e entries IH]; intros Hind; [done|].
  simpl. rewrite length_app, IH.
  - f_equal. f_equal. apply (Hind e); by left.
  - intros e' He'. apply Hind. by right.
Qed.

(** X13. The renderer prints one line for each entry of the structure,
    file or directory, whatever the prefix is. *)
Theorem one_line_per_entry (nd : Tree.node) (current_prefix : string) :
  length (Tree.build_tree_lines nd current_prefix) = count_entries nd.
Proof.
  revert current_prefix. induction nd as [|items IH] using node_induction;
    intros current_prefix; [done|].
  rewrite build_tree_lines_Dir.
  assert (Hbelow : forall name child, (name, child) ∈ items ->
            forall pfx, length (lines_below (entry_of (name, child)) pfx)
                        = count_entries child).
  { intros name child Hin pfx. unfold lines_below, entry_of. simpl.
    destruct child as [|sub]; [done|]. by apply (IH name). }
  rewrite emit_length.
  - unfold children_in_order. rewrite py_sorted_Permutation.
    clear IH. induction items as [|[name child] items IHi]; [done|].
    simpl. rewrite (Hbelow name child); [|by left].
    f_equal. f_equal. apply IHi. intros n c Hin. apply Hbelow. by right.
  - intros e He pfx. unfold children_in_order in He.
    rewrite py_sorted_Permutation in He.
    apply list_elem_of_In, in_map_iff in He as ([name child] & <- & Hin).
    apply list_elem_of_In in Hin. by rewrite !(Hbelow name child Hin).
Qed.

(** ** The traversal, file by file *)

Lemma accepted_file_decision incl excl ign max_bytes (nf : string * FS.file)
    (pc : string * string) :
  accepted_file incl excl ign max_bytes nf = Some pc ->
  exists bytes, pc.1 = nf.1
                /\ (should_process_file nf.1 incl excl ign true
                      (Some (take 1024 bytes)) false).1 = true.
Proof.
  unfold accepted_file.
  destruct (FS.f_size nf.2) as [file_size|]; [|done].
  destruct (FS.f_bytes nf.2) as [bytes|]; [|done].
  destruct (FS.f_text nf.2); [|done].
  destruct (negb _); simpl; [|done].
  destruct (should_process_file _ _ _ _ _ _ _).1 eqn:E; [|done].
  intros [= <-]. by exists bytes.
Qed.

(** X14. No included path has a component that is an ignored name,
    whatever the patterns are: a file below a directory named [.git] or
    [node_modules], or itself named [build] or [.env], is never included. *)
Theorem included_paths_avoid_ignored_names incl excl ign max_bytes v found p part :
  p ∈ included_relative_paths
        (traverse incl excl ign max_bytes v (LoopState [] [] []) found) ->
  part ∈ Str.split Str.os_sep p ->
  part ∉ ign.
Proof.
  intros Hp Hpart Hign.
  destruct (traverse_accepted incl excl ign max_bytes v found (LoopState [] [] []))
    as [_ Hpaths]. rewrite Hpaths in Hp. simpl in Hp.
  apply list_elem_of_In, in_map_iff in Hp as (pc & <- & Hin).
  apply list_elem_of_In, list_elem_of_omap in Hin as (nf & _ & Hacc).
  apply accepted_file_decision in Hacc as (bytes & Heq & Hdec).
  rewrite <- Heq, should_process_file_decision in Hdec.
  unfold passes_patterns in Hdec.
  assert (has_ignored_part pc.1 ign = true) as Hpart'
    by (apply has_ignored_part_spec; by exists part).
  by rewrite Hpart' in Hdec.
Qed.

Lemma included_paths_avoid_ignored_names_witness :
  "src" ∉ DEFAULT_IGNORE_DIRS.
Proof.
  apply (included_paths_avoid_ignored_names [] [] DEFAULT_IGNORE_DIRS
           (5 * inject_Z BYTES_IN_MB)%Q false
           (FS.walk DEFAULT_IGNORE_DIRS "" ex_top) "src/m.py").
  - vm_compute. apply list_elem_of_In. right. right. left. reflexivity.
  - vm_compute. apply list_elem_of_In. left. reflexivity.
Defined.

(** X15. A file whose size, sample or text cannot be read is passed over:
    the files before it and after it are treated as if it were not there. *)
Theorem unreadable_file_is_passed_over incl excl ign max_bytes v st before after p f :
  unreadable f ->
  let st1 := traverse incl excl ign max_bytes v st (before ++ (p, f) :: after) in
  let st2 := traverse incl excl ign max_bytes v st (before ++ after) in
  all_content_parts st1 = all_content_parts st2
  /\ included_relative_paths st1 = included_relative_paths st2.
Proof.
  intros Hf st1 st2. subst st1 st2.
  destruct (traverse_accepted incl excl ign max_bytes v
              (before ++ (p, f) :: after) st) as [-> ->].
  destruct (traverse_accepted incl excl ign max_bytes v (before ++ after) st)
    as [-> ->].
  assert (accepted_files incl excl ign max_bytes (before ++ (p, f) :: after)
          = accepted_files incl excl ign max_bytes (before ++ after)) as ->; [|done].
  unfold accepted_files. rewrite !omap_app. f_equal. simpl.
  assert (accepted_file incl excl ign max_bytes (p, f) = None) as ->; [|done].
  unfold accepted_file. simpl.
  destruct Hf as [->|[Hb|Ht]]; [done | |].
  - rewrite Hb. by destruct (FS.f_size f).
  - rewrite Ht. by destruct (FS.f_size f), (FS.f_bytes f).
Qed.

Lemma unreadable_file_is_passed_over_witness :
  included_relative_paths
    (traverse [] [] DEFAULT_IGNORE_DIRS (5 * inject_Z BYTES_IN_MB)%Q true
       (LoopState [] [] [])
       ([("a.txt", ex_file "a")]
        ++ ("locked.txt", FS.File (Some 3) None (Some "abc")) :: [("b.txt", ex_file "b")]))
  = included_relative_paths
      (traverse [] [] DEFAULT_IGNORE_DIRS (5 * inject_Z BYTES_IN_MB)%Q true
         (LoopState [] [] [])
         ([("a.txt", ex_file "a")] ++ [("b.txt", ex_file "b")])).
Proof.
  apply (unreadable_file_is_passed_over [] [] DEFAULT_IGNORE_DIRS
           (5 * inject_Z BYTES_IN_MB)%Q true (LoopState [] [] [])
           [("a.txt", ex_file "a")] [("b.txt", ex_file "b")] "locked.txt").
  right. left. reflexivity.
Defined.

Lemma process_file_quiet incl excl ign max_bytes st rel f :
  printed (process_file incl excl ign max_bytes false st rel f) = printed st.
Proof.
  unfold process_file.
  pose proof (fun bytes => should_process_file_quiet rel incl excl ign true
                             (Some (take 1024 bytes))) as Hq.
  destruct (FS.f_size f) as [file_size|]; simpl; [|by rewrite app_nil_r].
  destruct (too_large file_size max_bytes); simpl; [by rewrite app_nil_r|].
  destruct (FS.f_bytes f) as [bytes|]; simpl; [|by rewrite app_nil_r].
  specialize (Hq bytes).
  destruct (should_process_file rel incl excl ign true (Some (take 1024 bytes)) false)
    as [ok d]. simpl in Hq. subst d.
  destruct ok; [|by simpl; rewrite app_nil_r].
  destruct (FS.f_text f); simpl; by rewrite app_nil_r.
Qed.

Lemma traverse_quiet incl excl ign max_bytes found st :
  printed (traverse incl excl ign max_bytes false st found) = printed st.
Proof.
  revert st. induction found as [|nf found IH]; intros st; [done|].
  simpl. by rewrite IH, process_file_quiet.
Qed.

Lemma compile_patterns_quiet debug error (patterns : list string) :
  (compile_patterns debug error false patterns).2 = [].
Proof.
  induction patterns as [|p_str rest IH]; [done|]. simpl.
  by destruct (compile_patterns debug error false rest).
Qed.

Lemma insert_parts_warnings (parts : list string) (d : Tree.dict) :
  forallb diag_is_unconditional (Tree.insert_parts parts d).2 = true.
Proof.
  revert d. induction parts as [|part rest IH]; intros d; [done|].
  destruct rest as [|r rest']; [done|]. rewrite insert_parts_cons2.
  destruct (Tree.dict_get d part) as [[|sub]|].
  - specialize (IH []). by destruct (Tree.insert_parts (r :: rest') []).
  - specialize (IH sub). by destruct (Tree.insert_parts (r :: rest') sub).
  - specialize (IH []). by destruct (Tree.insert_parts (r :: rest') []).
Qed.

Lemma generate_tree_display_warnings (filepaths : list string) (repo_name : string) :
  forallb diag_is_unconditional (Tree.generate_tree_display filepaths repo_name).2
  = true.
Proof.
  unfold Tree.generate_tree_display. destruct filepaths as [|f fs]; [done|].
  assert (H : forall paths d,
            forallb diag_is_unconditional (Tree.build_structure paths d).2 = true).
  { induction paths as [|p paths IH]; intros d; [done|]. simpl.
    pose proof (insert_parts_warnings (Str.split Str.os_sep p) d) as H1.
    destruct (Tree.insert_parts _ d) as [d1 w1]. specialize (IH d1).
    destruct (Tree.build_structure paths d1) as [d2 w2]. simpl in *.
    by rewrite forallb_app, H1, IH. }
  specialize (H (Tree.sorted_unique (f :: fs)) []).
  by destruct (Tree.build_structure _ _).
Qed.

(** X16. Without [verbose] a run over a directory prints no line about
    any file or pattern: only the warning for a missing [.git], the
    warnings of the tree for path conflicts, and the line that says
    whether the output file was written. *)
Theorem quiet_run_prints_no_file_lines w a top :
  verbose a = false -> w_dir w (repo_path a) = Some top ->
  forallb diag_is_unconditional (stderr (ingest_repo w a).2) = true.
Proof.
  intros Hv Htop. unfold ingest_repo. rewrite Htop, Hv.
  pose proof (compile_patterns_ok DebugInclude ErrIncludeGlob false
                (default [] (include_patterns a))) as Hi.
  pose proof (compile_patterns_quiet DebugInclude ErrIncludeGlob
                (default [] (include_patterns a))) as Hi'.
  destruct (compile_patterns DebugInclude _ _ _) as [[incl|] d1]; [|done].
  pose proof (compile_patterns_ok DebugExclude ErrExcludeGlob false
                (default [] (exclude_patterns a))) as He.
  pose proof (compile_patterns_quiet DebugExclude ErrExcludeGlob
                (default [] (exclude_patterns a))) as He'.
  destruct (compile_patterns DebugExclude _ _ _) as [[excl|] d2]; [|done].
  simpl in Hi', He'. subst d1 d2.
  pose proof (generate_tree_display_warnings
                (included_relative_paths
                   (traverse incl excl DEFAULT_IGNORE_DIRS
                      (max_file_size_mb a * inject_Z BYTES_IN_MB)%Q false
                      (LoopState [] []
                         ((if negb (no_git_check a) && negb (has_git_dir top)
                           then [WarnNoGit (w_basename w (repo_path a))] else [])
                          ++ [] ++ []))
                      (FS.walk DEFAULT_IGNORE_DIRS "" top)))
                (w_basename w (repo_path a))) as Hw.
  destruct (Tree.generate_tree_display _ _) as [tree_header warnings].
  simpl in Hw. rewrite traverse_quiet. simpl. rewrite app_nil_r.
  assert (He0 : forallb diag_is_unconditional
                  (if negb (no_git_check a) && negb (has_git_dir top)
                   then [WarnNoGit (w_basename w (repo_path a))] else []) = true)
    by (by destruct (negb _ && negb _)).
  destruct (output_target (output_file a)) as [out|];
    [destruct (w_writable w out)|]; simpl;
    rewrite ?forallb_app, He0, Hw; done.
Qed.

Lemma quiet_run_prints_no_file_lines_witness :
  forallb diag_is_unconditional
    (stderr (ingest_repo ex_world (ex_args "repo" (Some "out.txt"))).2) = true.
Proof. by apply (quiet_run_prints_no_file_lines _ _ ex_top). Defined.

(** X17. The size limit is inclusive: a readable file whose size is at
    most the limit reaches the filter, and it is included exactly when
    the filter, given the first 1024 bytes, accepts its path. *)
Theorem file_within_limit_reaches_filter incl excl ign (mb : Q) v st rel f
    file_size bytes content :
  FS.f_size f = Some file_size ->
  (inject_Z file_size <= mb * inject_Z BYTES_IN_MB)%Q ->
  FS.f_bytes f = Some bytes ->
  FS.f_text f = Some content ->
  included_relative_paths
    (process_file incl excl ign (mb * inject_Z BYTES_IN_MB)%Q v st rel f)
  = included_relative_paths st
    ++ (if (should_process_file rel incl excl ign true
              (Some (take 1024 bytes)) false).1
        then [rel] else []).
Proof.
  intros Hsize Hle Hbytes Htext.
  destruct (process_file_accepted incl excl ign (mb * inject_Z BYTES_IN_MB)%Q
              v st (rel, f)) as [_ Hpaths].
  simpl in Hpaths. rewrite Hpaths. f_equal.
  unfold accepted_file. simpl. rewrite Hsize, Hbytes, Htext.
  assert (too_large file_size (mb * inject_Z BYTES_IN_MB)%Q = false) as ->.
  { destruct (too_large _ _) eqn:E; [|done].
    apply too_large_iff in E. by apply Qlt_not_le in E. }
  simpl. by destruct (should_process_file _ _ _ _ _ _ _).1.
Qed.

Lemma file_within_limit_reaches_filter_witness :
  included_relative_paths
    (process_file [] [] DEFAULT_IGNORE_DIRS (5 * inject_Z BYTES_IN_MB)%Q false
       (LoopState [] [] []) "big.txt"
       (FS.File (Some 5242880) (Some [Byte.x61]) (Some "a")))
  = [] ++ (if (should_process_file "big.txt" [] [] DEFAULT_IGNORE_DIRS true
                 (Some (take 1024 [Byte.x61])) false).1
           then ["big.txt"] else []).
Proof.
  apply (file_within_limit_reaches_filter [] [] DEFAULT_IGNORE_DIRS 5 false
           (LoopState [] [] []) "big.txt" _ 5242880 [Byte.x61] "a");
    try reflexivity.
  vm_compute. discriminate.
Defined.

(** X10. On a sample of at most 1024 bytes the null-byte test, computed in
    double precision, is exact: the sample counts as binary exactly when
    more than one byte in ten is null; with exactly one in ten it does
    not. *)
Theorem null_test_is_exact (sample : list byte) :
  Z.of_nat (length sample) <= 1024 ->
  (null_heavy sample = true <-> Z.of_nat (length sample) < 10 * count_null sample).
Proof.
  intros Hlen. rewrite (null_heavy_exact sample Hlen). apply bool_decide_eq_true.
Qed.

Lemma null_test_is_exact_witness :
  null_heavy [Byte.x00; Byte.x61; Byte.x61; Byte.x61; Byte.x61;
              Byte.x61; Byte.x61; Byte.x61; Byte.x61; Byte.x61] = true
  <-> Z.of_nat (length [Byte.x00; Byte.x61; Byte.x61; Byte.x61; Byte.x61;
                        Byte.x61; Byte.x61; Byte.x61; Byte.x61; Byte.x61])
      < 10 * count_null [Byte.x00; Byte.x61; Byte.x61; Byte.x61; Byte.x61;
                         Byte.x61; Byte.x61; Byte.x61; Byte.x61; Byte.x61].
Proof. apply null_test_is_exact. simpl. lia. Defined.

(** ** The walk *)

(** X18. What the walk finds does not depend on what is inside an ignored
    directory: walking with the ignored names is walking, with no name
    ignored, the directory from which they have been cut out. *)
Theorem walk_skips_ignored_subtrees (ignore : gset string) :
  forall (d : FS.dir) (root : string),
    FS.walk ignore root d = FS.walk ∅ root (prune ignore d).
Proof.
  fix IH 1. intros [files subdirs] root. simpl. f_equal.
  induction subdirs as [|[name sub] l IHl]; [done|].
  destruct (bool_decide (name ∈ ignore)); simpl.
  - exact IHl.
  - rewrite bool_decide_eq_false_2 by set_solver.
    by rewrite (IH sub), IHl.
Qed.
